(** * bittorrent-tracker: the swarm registry and the HTTP tracker client

    A shallow embedding of [lib/swarm.js] (the server-side [Swarm]) and of the
    HTTP tracker client that follows it in the same source file
    ([HTTPTracker]), with the properties of the specification stated over it.

    Conventions of the embedding.
    - A JavaScript object used as a map ([this.peers], the [files] mapping of
      a scrape response) is an association list kept in the order in which
      [for .. in] and [Object.keys] enumerate it.  Peer keys are the
      [ip:port] composites the server builds, info-hash keys are binary
      strings: ordinary own string keys, which JavaScript enumerates in
      insertion order.  Statements that add keys to the peer map or look up
      an address that may be absent are made for such addresses
      ([plain_address]).
    - Peer records are JavaScript objects that [announce] reads once and
      mutates later through the same reference, so they live in an object
      store ([objs]) and the peer map holds references into it.
    - The counters are JavaScript numbers that only ever hold integers; they
      are integers of [Z] here, and can become negative.
    - A function runs to one of three ends: it invokes its callback, it
      returns without doing so, or it throws.  Each is a constructor. *)

From Stdlib Require Import Ascii String.
From stdpp Require Import base numbers list strings pretty.

Local Open Scope Z_scope.
Local Open Scope string_scope.
Local Open Scope list_scope.

(** ** JavaScript values the code inspects *)

Inductive JsError : Type :=
  | ReferenceError (ident : string)   (* use of an identifier bound nowhere *)
  | TypeError (what : string)         (* property read or call on undefined *)
  | Error (message : string).         (* [new Error(message)] *)

(** [!x] for a string that may be absent: undefined and [''] are falsy. *)
Definition str_falsy (x : option string) : bool :=
  match x with
  | None => true
  | Some s => String.eqb s ""
  end.

(** Truthiness of a number that may be absent: undefined and [0] are falsy. *)
Definition num_truthy (x : option Z) : bool :=
  match x with
  | None => false
  | Some z => negb (Z.eqb z 0)
  end.

(** [x === 0] for a number that may be absent. *)
Definition is_zero (x : option Z) : bool :=
  match x with
  | Some z => Z.eqb z 0
  | None => false
  end.

(** [len >= numwant]: an undefined bound converts to NaN and every comparison
    with NaN is false. *)
Definition js_ge (len : nat) (numwant : option Z) : bool :=
  match numwant with
  | Some n => Z.leb n (Z.of_nat len)
  | None => false
  end.

(** A byte string of a decoded response, as a Buffer or as a string: a
    Buffer is truthy even when empty, a string only when non-empty. *)
Inductive JsText : Type :=
  | Buf (bytes : string)
  | Str (s : string).

Definition text_truthy (t : option JsText) : bool :=
  match t with
  | Some (Buf _) => true
  | Some (Str s) => negb (String.eqb s "")
  | None => false
  end.

(** [!t] *)
Definition text_falsy (t : option JsText) : bool := negb (text_truthy t).

(** The message of [new Error(t)]. *)
Definition text_message (t : option JsText) : string :=
  match t with
  | Some (Buf s) => s
  | Some (Str s) => s
  | None => "undefined"
  end.

(** ** Objects used as maps *)

Section ObjectMap.
Context {V : Type}.

(** [o[k]] for an own key: [None] is undefined.  A plain object also answers
    the names it inherits from [Object.prototype] ([constructor], [toString],
    [__proto__]); none of them holds a colon, so for an address of the form
    [ip:port] ([plain_address] below) the lookup is this one. *)
Fixpoint obj_get (k : string) (o : list (string * V)) : option V :=
  match o with
  | [] => None
  | (k', v) :: o' => if String.eqb k k' then Some v else obj_get k o'
  end.

(** [o[k] = v]: an existing key keeps its place, a new key goes last.
    That is the place JavaScript gives to every new key that is not an array
    index (indices are enumerated first, in numeric order); an address of the
    form [ip:port] is not one. *)
Fixpoint obj_set (k : string) (v : V) (o : list (string * V)) : list (string * V) :=
  match o with
  | [] => [(k, v)]
  | (k', v') :: o' =>
      if String.eqb k k' then (k, v) :: o' else (k', v') :: obj_set k v o'
  end.

(** [Object.keys(o)] *)
Definition obj_keys (o : list (string * V)) : list string := map fst o.
End ObjectMap.

(** ** The swarm (server side) *)

(** References into the object store. *)
Abbreviation ref := nat.

(** The record [_onAnnounce_started] creates.  It is created without a
    [complete] property; the property is only ever tested for truthiness and
    only ever assigned [true], so [peer_complete = false] stands for absent. *)
Record Peer : Type := mkPeer {
  peer_ip : string;
  peer_port : Z;
  peer_peerId : string;
  peer_complete : bool
}.

(** A slot of [this.peers]: a reference to a record, or [null]. *)
Definition Slot := option ref.

Record Swarm : Type := mkSwarm {
  objs : list Peer;                 (* every record ever created *)
  peers : list (string * Slot);     (* this.peers *)
  complete : Z;                     (* this.complete *)
  incomplete : Z                    (* this.incomplete *)
}.

(** [new Swarm(infoHash, server)] *)
Definition new_Swarm : Swarm :=
  {| objs := []; peers := []; complete := 0; incomplete := 0 |}.

Record Params : Type := mkParams {
  addr : string;
  ip : string;
  port : Z;
  peer_id : string;
  left : option Z;
  event : option string;
  numwant : option Z
}.

(** What [this.emit(name, params.addr)] hands to the server. *)
Inductive Emitted : Type := Emit (name : string) (arg : string).

(** One entry of the peer list of a response. *)
Record PeerTuple : Type := mkPeerTuple {
  t_peer_id : string;
  t_ip : string;
  t_port : Z
}.

Record Response : Type := mkResponse {
  r_complete : Z;
  r_incomplete : Z;
  r_peers : list PeerTuple
}.

(** How a handler ends: it called [cb()], it returned without calling it, or
    it threw. *)
Inductive Exit : Type :=
  | CbCalled
  | NoCb
  | Throw (e : JsError).

(** How [announce] ends, seen from its caller. *)
Inductive Outcome : Type :=
  | CbOk (r : Response)       (* cb(null, response) *)
  | CbErr (e : JsError)       (* cb(err) *)
  | CbNever                   (* returned, callback never invoked *)
  | Thrown (e : JsError).     (* exception out of announce *)

(** The value of [self.peers[params.addr]]: undefined, null or a reference. *)
Definition JsPeer := option Slot.

Definition truthy (peer : JsPeer) : option ref :=
  match peer with
  | Some (Some r) => Some r
  | _ => None
  end.

Definition set_counts (this : Swarm) (c i : Z) : Swarm :=
  {| objs := objs this; peers := peers this; complete := c; incomplete := i |}.

Definition set_slot (this : Swarm) (k : string) (v : Slot) : Swarm :=
  {| objs := objs this; peers := obj_set k v (peers this);
     complete := complete this; incomplete := incomplete this |}.

(** [peer.complete = true] through the reference [r]. *)
Definition mark_complete (this : Swarm) (r : ref) : Swarm :=
  match objs this !! r with
  | Some p =>
      {| objs := <[r := mkPeer (peer_ip p) (peer_port p) (peer_peerId p) true]> (objs this);
         peers := peers this;
         complete := complete this; incomplete := incomplete this |}
  | None => this
  end.

(** [peer.complete] read through the reference [r]. *)
Definition read_complete (this : Swarm) (r : ref) : bool :=
  match objs this !! r with
  | Some p => peer_complete p
  | None => false
  end.

(** Handlers receive what JavaScript passes: any argument may be missing. *)
Definition Handler := Swarm -> option Params -> JsPeer -> bool -> Swarm * list Emitted * Exit.

(** [cb()] as the last statement of a handler. *)
Definition call_cb (cb : bool) : Exit :=
  if cb then CbCalled else Throw (TypeError "cb is not a function").

Definition _onAnnounce_update : Handler := fun this params peer cb =>
  match truthy peer with
  | None =>
      (* return start(): no [start] is declared anywhere *)
      (this, [], Throw (ReferenceError "start"))
  | Some _ =>
      match params with
      | None => (this, [], Throw (TypeError "params is undefined"))
      | Some params => (this, [Emit "update" (addr params)], call_cb cb)
      end
  end.

Definition _onAnnounce_started : Handler := fun this params peer cb =>
  match truthy peer with
  | Some _ =>
      (* return this._onAnnounce_update(): called with no argument at all *)
      _onAnnounce_update this None None false
  | None =>
      match params with
      | None => (this, [], Throw (TypeError "params is undefined"))
      | Some params =>
          let this1 :=
            if is_zero (left params)
            then set_counts this (complete this + 1) (incomplete this)
            else set_counts this (complete this) (incomplete this + 1) in
          let r := length (objs this1) in
          let this2 :=
            {| objs := objs this1 ++ [mkPeer (ip params) (port params) (peer_id params) false];
               peers := obj_set (addr params) (Some r) (peers this1);
               complete := complete this1; incomplete := incomplete this1 |} in
          (this2, [Emit "start" (addr params)], call_cb cb)
      end
  end.

Definition _onAnnounce_stopped : Handler := fun this params peer cb =>
  match truthy peer with
  | None => (this, [], NoCb)                (* return // do nothing *)
  | Some r =>
      let this1 :=
        if read_complete this r
        then set_counts this (complete this - 1) (incomplete this)
        else set_counts this (complete this) (incomplete this - 1) in
      match params with
      | None => (this1, [], Throw (TypeError "params is undefined"))
      | Some params =>
          (set_slot this1 (addr params) None, [Emit "stop" (addr params)], call_cb cb)
      end
  end.

Definition _onAnnounce_completed : Handler := fun this params peer cb =>
  match truthy peer with
  | None => (this, [], Throw (ReferenceError "start"))   (* return start() *)
  | Some r =>
      if read_complete this r then (this, [], NoCb)      (* return // do nothing *)
      else
        let this1 := set_counts this (complete this + 1) (incomplete this - 1) in
        let this2 := mark_complete this1 r in
        match params with
        | None => (this2, [], Throw (TypeError "params is undefined"))
        | Some params => (this2, [Emit "complete" (addr params)], call_cb cb)
        end
  end.

(** The body of the [for .. in] loop of [_getPeers], over the keys not yet
    visited; [acc] is the array [peers] built so far. *)
Fixpoint _getPeers_loop (heap : list Peer) (numwant : option Z)
    (todo : list (string * Slot)) (acc : list PeerTuple) : list PeerTuple :=
  match todo with
  | [] => acc
  | (_, slot) :: todo' =>
      if js_ge (length acc) numwant then acc                      (* break *)
      else
        match slot with
        | None => _getPeers_loop heap numwant todo' acc           (* continue *)
        | Some r =>
            match heap !! r with
            | Some p =>
                _getPeers_loop heap numwant todo'
                  (acc ++ [mkPeerTuple (peer_peerId p) (peer_ip p) (peer_port p)])
            | None => _getPeers_loop heap numwant todo' acc
            end
        end
  end.

Definition _getPeers (this : Swarm) (numwant : option Z) : list PeerTuple :=
  _getPeers_loop (objs this) numwant (peers this) [].

(** [self[fn]]: the methods of [Swarm.prototype] whose name can be reached by
    ['_onAnnounce_' + params.event]. *)
Definition method (fn : string) : option Handler :=
  if String.eqb fn "_onAnnounce_started" then Some _onAnnounce_started
  else if String.eqb fn "_onAnnounce_stopped" then Some _onAnnounce_stopped
  else if String.eqb fn "_onAnnounce_completed" then Some _onAnnounce_completed
  else if String.eqb fn "_onAnnounce_update" then Some _onAnnounce_update
  else None.

(** [if (!params.event || params.event === 'empty') params.event = 'update'] *)
Definition normalize_event (e : option string) : string :=
  match e with
  | None => "update"
  | Some s => if str_falsy e || String.eqb s "empty" then "update" else s
  end.

Definition set_event (params : Params) (e : string) : Params :=
  mkParams (addr params) (ip params) (port params) (peer_id params)
           (left params) (Some e) (numwant params).

Definition announce (self : Swarm) (params : Params) : Swarm * list Emitted * Outcome :=
  let peer := obj_get (addr params) (peers self) in
  let e := normalize_event (event params) in      (* params.event from here on *)
  let params := set_event params e in
  let fn := "_onAnnounce_" +:+ e in
  match method fn with
  | Some handler =>
      let '(self1, emitted, exit) := handler self (Some params) peer true in
      match exit with
      | CbCalled =>
          (* the callback handed to the handler *)
          let self2 :=
            match truthy peer with
            | Some r => if is_zero (left params) then mark_complete self1 r else self1
            | None => self1
            end in
          let peers := _getPeers self2 (numwant params) in
          (self2, emitted,
           CbOk {| r_complete := complete self2;
                   r_incomplete := incomplete self2;
                   r_peers := peers |})
      | NoCb => (self1, emitted, CbNever)
      | Throw e => (self1, emitted, Thrown e)
      end
  | None => (self, [], CbErr (Error "invalid event"))
  end.

(** [scrape(infoHash, params, cb)]: [cb(null, {complete, incomplete})]. *)
Definition scrape {A B : Type} (this : Swarm) (infoHash : A) (params : B) : Swarm * (Z * Z) :=
  (this, (complete this, incomplete this)).

(** Running a sequence of announces, the caller surviving every exception. *)
Definition state_after (self : Swarm) (params : Params) : Swarm :=
  fst (fst (announce self params)).

Definition run (calls : list Params) (self : Swarm) : Swarm :=
  fold_left state_after calls self.

(** ** The HTTP tracker client *)

(** [peers] / [peers6] of a decoded announce response: a Buffer (compact
    form), an array of [{ip, port}] records, or anything else. *)
Record VerbosePeer : Type := mkVerbosePeer {
  v_ip : string;
  v_port : Z
}.

Inductive PeersField : Type :=
  | PeersOther
  | PeersBuffer (bytes : string)
  | PeersArray (l : list VerbosePeer).

Record AnnounceData : Type := mkAnnounceData {
  d_interval : option Z;            (* data.interval *)
  d_min_interval : option Z;        (* data['min interval'] *)
  d_tracker_id : option JsText;     (* data['tracker id'] *)
  d_complete : option Z;
  d_incomplete : option Z;
  d_peers : PeersField;
  d_peers6 : PeersField
}.

Record ScrapeStats : Type := mkScrapeStats {
  s_complete : option Z;
  s_incomplete : option Z;
  s_downloaded : option Z
}.

Record ScrapeData : Type := mkScrapeData {
  files : option (list (string * ScrapeStats));
  host : option (list (string * ScrapeStats))
}.

(** What [self.client.emit] is called with. *)
Inductive ClientEvent : Type :=
  | EvUpdate (announce_url : string) (complete incomplete : option Z)
  | EvPeer (address : string)
  | EvScrape (announce_url infoHash : string) (complete incomplete downloaded : option Z)
  | EvWarning (err : JsError).

(** A timer made by the global [setInterval], with the delay it was given;
    [clearInterval] stops it. *)
Record Timer : Type := mkTimer {
  period : Z;
  running : bool
}.

(** The tracker.  [_interval] is the timer whose handle the tracker holds;
    [_dropped] are the timers it made before and holds no handle of any more:
    the runtime keeps them, running or not, until they are cleared. *)
Record HTTPTracker : Type := MkHTTPTracker {
  _announceUrl : string;
  _opts_interval : option Z;        (* self._opts.interval *)
  _intervalMs : Z;
  _interval : option Timer;
  _trackerId : option JsText;
  _dropped : list Timer
}.

(** A tracker that has dropped no timer. *)
Definition mkHTTPTracker (announceUrl : string) (opts_interval : option Z)
    (intervalMs : Z) (interval : option Timer) (trackerId : option JsText) : HTTPTracker :=
  MkHTTPTracker announceUrl opts_interval intervalMs interval trackerId [].

Definition clearInterval (t : option Timer) : option Timer :=
  match t with
  | Some t => Some (mkTimer (period t) false)
  | None => None
  end.

(** [self._interval] is cleared first; it is overwritten by the handle of a
    new timer only when [intervalMs] is not zero, and the timer it held goes
    to the dropped ones. *)
Definition setInterval (self : HTTPTracker) (intervalMs : Z) : HTTPTracker :=
  let stopped := clearInterval (_interval self) in
  MkHTTPTracker (_announceUrl self) (_opts_interval self) intervalMs
    (if Z.eqb intervalMs 0 then stopped else Some (mkTimer intervalMs true))
    (_trackerId self)
    (if Z.eqb intervalMs 0 then _dropped self
     else match stopped with
          | Some old => old :: _dropped self
          | None => _dropped self
          end).

(** [/^\[/.test(s)] *)
Definition starts_with_bracket (s : string) : bool :=
  match s with
  | String c _ => Ascii.eqb c "["%char
  | EmptyString => false
  end.

(** [/:/.test(s)] *)
Fixpoint has_colon (s : string) : bool :=
  match s with
  | String c s' => Ascii.eqb c ":"%char || has_colon s'
  | EmptyString => false
  end.

(** [a + ':' + port] *)
Definition host_port (a : string) (p : Z) : string := a +:+ ":" +:+ pretty p.

Definition peer6_address (p : VerbosePeer) : string :=
  let ip := if starts_with_bracket (v_ip p) || negb (has_colon (v_ip p))
            then v_ip p
            else "[" +:+ v_ip p +:+ "]" in
  host_port ip (v_port p).

Section Client.
(** The libraries the client calls.  [compact2string.multi] and [multi6]
    throw on a malformed buffer ([inl]); [common.binaryToHex] renders a
    binary string in hexadecimal. *)
Variable multi : string -> JsError + list string.
Variable multi6 : string -> JsError + list string.
Variable binaryToHex : string -> string.

(** The second half of [_onAnnounceResponse]: the [peers6] field. *)
Definition peers6_events (data : AnnounceData) : list ClientEvent :=
  match d_peers6 data with
  | PeersBuffer b =>
      match multi6 b with
      | inl err => [EvWarning err]                     (* return emit('warning', err) *)
      | inr addrs => map EvPeer addrs
      end
  | PeersArray l => map (fun p => EvPeer (peer6_address p)) l
  | PeersOther => []
  end.

Definition _onAnnounceResponse (self : HTTPTracker) (data : AnnounceData)
    : HTTPTracker * list ClientEvent :=
  let interval :=
    if num_truthy (d_interval data) then d_interval data else d_min_interval data in
  let self1 :=
    match interval with
    | Some i =>
        if num_truthy interval && negb (num_truthy (_opts_interval self))
           && negb (Z.eqb (_intervalMs self) 0)
        then setInterval self (i * 1000)
        else self
    | None => self
    end in
  let self2 :=
    if text_falsy (d_tracker_id data) then self1
    else MkHTTPTracker (_announceUrl self1) (_opts_interval self1) (_intervalMs self1)
                       (_interval self1) (d_tracker_id data) (_dropped self1) in
  let update :=
    EvUpdate (_announceUrl self2) (d_complete data) (d_incomplete data) in
  match d_peers data with
  | PeersBuffer b =>
      match multi b with
      | inl err => (self2, [update; EvWarning err])    (* return emit('warning', err) *)
      | inr addrs => (self2, update :: map EvPeer addrs ++ peers6_events data)
      end
  | PeersArray l =>
      (self2,
       update :: map (fun p => EvPeer (host_port (v_ip p) (v_port p))) l
              ++ peers6_events data)
  | PeersOther => (self2, update :: peers6_events data)
  end.

(** [data.files || data.host || {}]: an object is truthy even when empty. *)
Definition scrape_mapping (data : ScrapeData) : list (string * ScrapeStats) :=
  match files data with
  | Some f => f
  | None =>
      match host data with
      | Some h => h
      | None => []
      end
  end.

(** The event one key of the mapping gives.  The key comes from
    [Object.keys(data)], so [data[infoHash]] is always there. *)
Definition scrape_event (self : HTTPTracker) (data : list (string * ScrapeStats))
    (infoHash : string) : ClientEvent :=
  match obj_get infoHash data with
  | Some response =>
      EvScrape (_announceUrl self) (binaryToHex infoHash)
               (s_complete response) (s_incomplete response) (s_downloaded response)
  | None => EvScrape (_announceUrl self) (binaryToHex infoHash) None None None
  end.

Definition _onScrapeResponse (self : HTTPTracker) (data : ScrapeData) : list ClientEvent :=
  let data := scrape_mapping data in
  let keys := obj_keys data in
  if Nat.eqb (length keys) 0
  then [EvWarning (Error "invalid scrape response")]
  else map (scrape_event self data) keys.
End Client.

(** ** The HTTP tracker client: construction and requests *)

Module HTTP.

(** What the tracker reads of its parent client.  The two Buffers are kept as
    the binary strings [toString('binary')] gives. *)
Record Client : Type := mkClient {
  c_intervalMs : Z;                 (* client._intervalMs *)
  c_numWant : Z;                    (* client._numWant *)
  c_infoHash : string;              (* client._infoHash *)
  c_peerId : string;                (* client._peerId *)
  c_port : Z                        (* client._port *)
}.

(** [[^\/]*$]: no slash up to the end of the string. *)
Fixpoint no_slash (s : string) : bool :=
  match s with
  | String c s' => negb (Ascii.eqb c "/"%char) && no_slash s'
  | EmptyString => true
  end.

(** [s] without the prefix [p], when it has it. *)
Fixpoint strip_prefix (p s : string) : option string :=
  match p, s with
  | EmptyString, _ => Some s
  | String a p', String b s' => if Ascii.eqb a b then strip_prefix p' s' else None
  | String _ _, EmptyString => None
  end.

(** [HTTP_SCRAPE_SUPPORT = /\/(announce)[^\/]*$/] tried at the start of [s]. *)
Definition scrape_support_here (s : string) : bool :=
  match strip_prefix "/announce" s with
  | Some rest => no_slash rest
  | None => false
  end.

(** [announceUrl.match(HTTP_SCRAPE_SUPPORT)]: the index of the leftmost
    match, [None] for [null]. *)
Fixpoint scrape_support_index (s : string) : option nat :=
  if scrape_support_here s then Some 0%nat
  else
    match s with
    | String _ s' =>
        match scrape_support_index s' with
        | Some i => Some (S i)
        | None => None
        end
    | EmptyString => None
    end.

(** [s.slice(0, n)] and [s.slice(n)] for [0 <= n]. *)
Fixpoint slice_to (n : nat) (s : string) : string :=
  match n, s with
  | S n', String c s' => String c (slice_to n' s')
  | _, _ => EmptyString
  end.

Fixpoint slice_from (n : nat) (s : string) : string :=
  match n, s with
  | S n', String _ s' => slice_from n' s'
  | _, _ => s
  end.

(** [self._scrapeUrl].  The constructor computes it from the announce URL and
    nothing assigns either of them afterwards. *)
Definition _scrapeUrl (announceUrl : string) : option string :=
  match scrape_support_index announceUrl with
  | Some index =>
      Some (slice_to index announceUrl +:+ "/scrape"
            +:+ slice_from (index + 9) announceUrl)
  | None => None
  end.

(** [new HTTPTracker(client, announceUrl, opts)] *)
Definition new_HTTPTracker (client : Client) (announceUrl : string)
    (opts_interval : option Z) : HTTPTracker :=
  mkHTTPTracker announceUrl opts_interval (c_intervalMs client) None None.

(** One info hash or an array of them: [opts.infoHash] holds Buffers,
    [opts.info_hash] the binary strings made from them. *)
Inductive Hashes : Type :=
  | OneHash (h : string)
  | HashList (l : list string).

(** The options object handed to [announce] and [scrape]; [o_rest] holds the
    fields the tracker passes on untouched (uploaded, downloaded, left, event). *)
Record Opts : Type := mkOpts {
  o_trackerid : option JsText;
  o_compact : option Z;
  o_numwant : option Z;
  o_info_hash : option Hashes;
  o_peer_id : option string;
  o_port : option Z;
  o_infoHash : option Hashes;
  o_rest : list (string * string)
}.

(** [HTTPTracker.prototype.announce], up to the call of [_request]: the
    options the request is made with. *)
Definition announce (client : Client) (self : HTTPTracker) (opts : Opts) : Opts :=
  let trackerid :=
    if text_falsy (_trackerId self) then o_trackerid opts else _trackerId self in
  let compact :=
    match o_compact opts with
    | None => Some 1                                  (* opts.compact == null *)
    | Some c => Some c
    end in
  let numwant :=
    match o_numwant opts with
    | None => Some (c_numWant client)
    | Some n => Some n
    end in
  mkOpts trackerid compact numwant
         (Some (OneHash (c_infoHash client))) (Some (c_peerId client))
         (Some (c_port client)) (o_infoHash opts) (o_rest opts).

(** How [HTTPTracker.prototype.scrape] ends: it emits an error on the client
    and returns, or it calls [_request] with a URL and options. *)
Inductive ScrapeCall : Type :=
  | ScrapeError (e : JsError)
  | ScrapeRequest (requestUrl : string) (opts : Opts).

(** [(Array.isArray(x) && x.length > 0) ? x.map(..) : (x || client._infoHash).toString('binary')]:
    an empty array is truthy and its [toString] is the empty string. *)
Definition scrape_info_hash (client : Client) (infoHash : option Hashes) : Hashes :=
  match infoHash with
  | Some (HashList (h :: l)) => HashList (h :: l)
  | Some (HashList []) => OneHash ""
  | Some (OneHash h) => OneHash h
  | None => OneHash (c_infoHash client)
  end.

Definition scrape (client : Client) (self : HTTPTracker) (opts : Opts) : ScrapeCall :=
  match _scrapeUrl (_announceUrl self) with
  | None =>
      ScrapeError (Error ("scrape not supported " +:+ _announceUrl self))
  | Some scrapeUrl =>
      ScrapeRequest scrapeUrl
        (mkOpts (o_trackerid opts) (o_compact opts) (o_numwant opts)
                (Some (scrape_info_hash client (o_infoHash opts)))
                (o_peer_id opts) (o_port opts)
                None                                  (* delete opts.infoHash *)
                (o_rest opts))
  end.

(** [requestUrl.indexOf('?') === -1] *)
Fixpoint has_query (s : string) : bool :=
  match s with
  | String c s' => Ascii.eqb c "?"%char || has_query s'
  | EmptyString => false
  end.

(** What [get.concat] hands to its callback: [err], [res.statusCode], [data]. *)
Record Reply : Type := mkReply {
  reply_err : option JsError;
  reply_statusCode : Z;
  reply_data : option string
}.

(** A decoded response: the two fields [_request] reads itself, and the
    fields the response handler reads. *)
Record Decoded (D : Type) : Type := mkDecoded {
  failure_reason : option JsText;       (* data['failure reason'] *)
  warning_message : option JsText;      (* data['warning message'] *)
  payload : D
}.
Arguments mkDecoded {D} _ _ _.
Arguments failure_reason {D} _.
Arguments warning_message {D} _.
Arguments payload {D} _.

Section Request.
(** [common.querystringStringify] and [bencode.decode]; the latter throws an
    error with a message ([inl]) on malformed input. *)
Variable querystringStringify : Opts -> string.
Variable D : Type.
Variable decode : string -> string + Decoded D.

(** The URL [_request] fetches. *)
Definition _request_url (requestUrl : string) (opts : Opts) : string :=
  requestUrl +:+ (if has_query requestUrl then "&" else "?")
             +:+ querystringStringify opts.

(** The callback [_request] gives to [get.concat], run when the reply comes;
    [cb] is the response handler bound to the tracker. *)
Definition _request_callback (self : HTTPTracker)
    (cb : HTTPTracker -> D -> HTTPTracker * list ClientEvent)
    (reply : Reply) : HTTPTracker * list ClientEvent :=
  match reply_err reply with
  | Some err => (self, [EvWarning err])
  | None =>
      if negb (Z.eqb (reply_statusCode reply) 200) then
        (self, [EvWarning (Error ("Non-200 response code "
                                  +:+ pretty (reply_statusCode reply)
                                  +:+ " from " +:+ _announceUrl self))])
      else
        match reply_data reply with
        | None | Some EmptyString =>
            (self, [EvWarning (Error ("Invalid tracker response from"
                                      +:+ _announceUrl self))])
        | Some data =>
            match decode data with
            | inl message =>
                (self, [EvWarning (Error ("Error decoding tracker response: "
                                          +:+ message))])
            | inr data =>
                if text_truthy (failure_reason data) then
                  (self, [EvWarning (Error (text_message (failure_reason data)))])
                else
                  let warned :=
                    if text_truthy (warning_message data)
                    then [EvWarning (Error (text_message (warning_message data)))]
                    else [] in
                  let '(self', events) := cb self (payload data) in
                  (self', warned ++ events)
            end
        end
  end.
End Request.

End HTTP.

(** A tracker going through the announce responses of a session, oldest
    first. *)
Definition after_responses (multi multi6 : string -> JsError + list string)
    (self : HTTPTracker) (responses : list AnnounceData) : HTTPTracker :=
  fold_left (fun t d => fst (_onAnnounceResponse multi multi6 t d)) responses self.

(** [_onScrapeResponse] as a response handler: it leaves the tracker alone. *)
Definition scrape_handler (binaryToHex : string -> string)
    (self : HTTPTracker) (data : ScrapeData) : HTTPTracker * list ClientEvent :=
  (self, _onScrapeResponse binaryToHex self data).

Definition is_peer_event (e : ClientEvent) : bool :=
  match e with
  | EvPeer _ => true
  | _ => false
  end.

Definition is_warning (e : ClientEvent) : bool :=
  match e with
  | EvWarning _ => true
  | _ => false
  end.

(** ** Notions the properties are stated with *)

(** The handlers [announce] can dispatch to. *)
Definition handlers : list Handler :=
  [_onAnnounce_started; _onAnnounce_stopped; _onAnnounce_completed; _onAnnounce_update].

(** The non-tombstoned slots of a peer map, in the order of the map. *)
Fixpoint live_refs (m : list (string * Slot)) : list ref :=
  match m with
  | [] => []
  | (_, Some r) :: m' => r :: live_refs m'
  | (_, None) :: m' => live_refs m'
  end.

Definition surviving (this : Swarm) : list ref := live_refs (peers this).

Definition live_count (this : Swarm) : Z := Z.of_nat (length (surviving this)).

(** The surviving entries whose record has [complete] set. *)
Definition flagged_complete (this : Swarm) : list ref :=
  List.filter (read_complete this) (surviving this).

(** The invariant the specification gives for the registry: the counters
    add up to the number of non-tombstoned entries, [complete] counts the
    entries whose flag is set and [incomplete] all the others. *)
Definition registry_invariant (this : Swarm) : Prop :=
  complete this + incomplete this = live_count this /\
  complete this = Z.of_nat (length (flagged_complete this)) /\
  incomplete this
  = Z.of_nat (length (surviving this)) - Z.of_nat (length (flagged_complete this)).

(** What the counters hold beyond the number of live entries. *)
Definition balance (this : Swarm) : Z :=
  complete this + incomplete this - live_count this.

(** What a slot value adds to the number of live entries. *)
Definition slot_weight (x : JsPeer) : Z :=
  match truthy x with
  | Some _ => 1
  | None => 0
  end.

(** Every reference held by the peer map points at a record of the store. *)
Definition refs_in (heap : list Peer) (m : list (string * Slot)) : bool :=
  forallb (fun r => Nat.ltb r (length heap)) (live_refs m).

Definition wf (this : Swarm) : Prop := refs_in (objs this) (peers this) = true.

(** A registry is sound when, besides, no two slots hold the same record. *)
Definition sound (this : Swarm) : Prop := wf this /\ List.NoDup (surviving this).

(** The entry of a peer list made from the record behind a reference. *)
Definition tuple_at (heap : list Peer) (r : ref) (t : PeerTuple) : Prop :=
  exists p, heap !! r = Some p /\
            t = mkPeerTuple (peer_peerId p) (peer_ip p) (peer_port p).

(** The first [k] elements, or all of them when there is no bound. *)
Definition take_opt {A : Type} (k : option nat) (l : list A) : list A :=
  match k with
  | Some k => take k l
  | None => l
  end.

(** How many more entries the loop of [_getPeers] may still push. *)
Definition budget (numwant : option Z) (len : nat) : option nat :=
  match numwant with
  | Some z => Some (Z.to_nat (z - Z.of_nat len))
  | None => None
  end.

Definition is_valid_event (e : string) : bool :=
  String.eqb e "started" || String.eqb e "stopped"
  || String.eqb e "completed" || String.eqb e "update".

(** The branches on which a handler reaches [cb()]. *)
Definition regular (self : Swarm) (params : Params) : bool :=
  let e := normalize_event (event params) in
  match truthy (obj_get (addr params) (peers self)) with
  | None => String.eqb e "started"
  | Some r =>
      String.eqb e "stopped" || String.eqb e "update"
      || (String.eqb e "completed" && negb (read_complete self r))
  end.

Definition outcome_of (x : Swarm * list Emitted * Outcome) : Outcome := snd x.

(** The callback of [announce], as a function of the state the handler left. *)
Definition finish (params : Params) (r : ref) (this : Swarm) : Swarm :=
  if is_zero (left params) then mark_complete this r else this.

(** The name under which an event is notified to the server. *)
Definition notification_of (e : string) : string :=
  if String.eqb e "started" then "start"
  else if String.eqb e "stopped" then "stop"
  else if String.eqb e "completed" then "complete"
  else e.

Definition is_Some_b {A : Type} (x : option A) : bool :=
  match x with
  | Some _ => true
  | None => false
  end.

(** What follows the last slash of a URL, when it has a slash. *)
Fixpoint after_last_slash (s : string) : option string :=
  match s with
  | EmptyString => None
  | String c s' =>
      match after_last_slash s' with
      | Some segment => Some segment
      | None => if Ascii.eqb c "/"%char then Some s' else None
      end
  end.

(** The last path segment of the URL begins with [announce]. *)
Definition ends_in_announce (url : string) : bool :=
  match after_last_slash url with
  | Some segment => is_Some_b (HTTP.strip_prefix "announce" segment)
  | None => false
  end.

(** The state [_onAnnounceResponse] leaves: the interval and the tracker id
    it negotiates. *)
Definition negotiated (self : HTTPTracker) (data : AnnounceData) : HTTPTracker :=
  let interval :=
    if num_truthy (d_interval data) then d_interval data else d_min_interval data in
  let self1 :=
    match interval with
    | Some i =>
        if num_truthy interval && negb (num_truthy (_opts_interval self))
           && negb (Z.eqb (_intervalMs self) 0)
        then setInterval self (i * 1000)
        else self
    | None => self
    end in
  if text_falsy (d_tracker_id data) then self1
  else MkHTTPTracker (_announceUrl self1) (_opts_interval self1) (_intervalMs self1)
                     (_interval self1) (d_tracker_id data) (_dropped self1).

(** The timer of a tracker agrees with its interval: either there is no
    timer and the interval is the one the tracker started with, or the timer
    runs with the interval as its period, which is not zero. *)
Definition timer_agrees (start : Z) (self : HTTPTracker) : Prop :=
  match _interval self with
  | Some timer =>
      running timer = true /\ period timer = _intervalMs self /\ _intervalMs self <> 0
  | None => _intervalMs self = start
  end.

(** A reply that never reaches the response handler: transport error,
    status other than 200, no body, or a body that does not decode. *)
Definition transport_failed {D : Type} (decode : string -> string + HTTP.Decoded D)
    (reply : HTTP.Reply) : bool :=
  is_Some_b (HTTP.reply_err reply)
  || negb (Z.eqb (HTTP.reply_statusCode reply) 200)
  || match HTTP.reply_data reply with
     | None | Some EmptyString => true
     | Some data =>
         match decode data with
         | inl _ => true
         | inr _ => false
         end
     end.

(** An address of the form the server builds, [ip:port].  A key that holds
    a colon is no array index and no name inherited from [Object.prototype]:
    [this.peers] treats it as an ordinary own key. *)
Definition plain_address (a : string) : bool := has_colon a.

(** The timers of a tracker that are running: the one it holds the handle
    of and the ones it dropped. *)
Definition running_timers (self : HTTPTracker) : list Timer :=
  List.filter running
    (match _interval self with
     | Some timer => timer :: _dropped self
     | None => _dropped self
     end).

(** No dropped timer is running. *)
Definition dropped_stopped (self : HTTPTracker) : bool :=
  forallb (fun timer => negb (running timer)) (_dropped self).

(** What happens to a tracker during a session: a call of [setInterval], or
    an announce response. *)
Inductive SessionStep : Type :=
  | CallSetInterval (intervalMs : Z)
  | GetResponse (data : AnnounceData).

Definition session_step (multi multi6 : string -> JsError + list string)
    (self : HTTPTracker) (st : SessionStep) : HTTPTracker :=
  match st with
  | CallSetInterval intervalMs => setInterval self intervalMs
  | GetResponse data => fst (_onAnnounceResponse multi multi6 self data)
  end.

Definition after_steps (multi multi6 : string -> JsError + list string)
    (self : HTTPTracker) (steps : list SessionStep) : HTTPTracker :=
  fold_left (session_step multi multi6) steps self.

(** A field of a scrape response yields a non-empty mapping. *)
Definition yields_mapping (field : option (list (string * ScrapeStats))) : bool :=
  match field with
  | Some (_ :: _) => true
  | _ => false
  end.

(** The events of a scrape response as the specification words them: the
    [files] mapping is used when present, else the [host] mapping; when
    neither field yields a non-empty mapping there is one warning, and
    otherwise one scrape event per key of the mapping used. *)
Definition scrape_events_as_specified (binaryToHex : string -> string)
    (self : HTTPTracker) (data : ScrapeData) : list ClientEvent :=
  let used :=
    match files data with
    | Some f => f
    | None =>
        match host data with
        | Some h => h
        | None => []
        end
    end in
  if negb (yields_mapping (files data)) && negb (yields_mapping (host data))
  then [EvWarning (Error "invalid scrape response")]
  else map (scrape_event binaryToHex self used) (obj_keys used).

(** An announce as the server hands it over: the peer [who], listening on
    port 6881, asking for up to fifty peers. *)
Definition call (who : string) (e : option string) (l : option Z) : Params :=
  mkParams (who +:+ ":6881") who 6881 ("-WW0001-" +:+ who) l e (Some 50).

(** ** Lemmas on objects used as maps *)

Lemma surviving_obj_set (k : string) (v : Slot) (m : list (string * Slot)) :
  Z.of_nat (length (live_refs (obj_set k v m)))
  = Z.of_nat (length (live_refs m)) - slot_weight (obj_get k m) + slot_weight (Some v).
Proof.
  induction m as [|[k' v'] m IH]; simpl.
  - destruct v; simpl; reflexivity.
  - destruct (String.eqb k k'); simpl.
    + destruct v, v'; simpl; unfold slot_weight; simpl; lia.
    + destruct v'; simpl length; lia.
Qed.

Lemma live_refs_obj_set (k : string) (v : Slot) (m : list (string * Slot)) (r : ref) :
  In r (live_refs (obj_set k v m)) -> In r (live_refs m) \/ v = Some r.
Proof.
  induction m as [|[k' v'] m IH]; simpl.
  - destruct v; simpl; [intros [->|[]]; now right | tauto].
  - destruct (String.eqb k k'); simpl.
    + destruct v, v'; simpl; intuition congruence.
    + destruct v'; simpl; intuition.
Qed.

Lemma obj_get_keys {V : Type} (k : string) (m : list (string * V)) :
  In k (obj_keys m) -> exists v, obj_get k m = Some v.
Proof.
  induction m as [|[k' v'] m IH]; simpl; [tauto|].
  intros [->|H].
  - rewrite String.eqb_refl; eauto.
  - destruct (String.eqb k k'); eauto.
Qed.

(** ** Dispatch *)

Lemma method_prefixed (e : string) :
  method ("_onAnnounce_" +:+ e) =
    if String.eqb e "started" then Some _onAnnounce_started
    else if String.eqb e "stopped" then Some _onAnnounce_stopped
    else if String.eqb e "completed" then Some _onAnnounce_completed
    else if String.eqb e "update" then Some _onAnnounce_update
    else None.
Proof. reflexivity. Qed.

Lemma method_cases (fn : string) :
  method fn = None \/ exists h, method fn = Some h /\ In h handlers.
Proof.
  unfold method, handlers.
  repeat match goal with
         | |- context [if ?b then _ else _] => destruct b
         end; simpl; eauto 10.
Qed.

(** ** What every announce preserves *)

Section Preservation.
Variable P : Swarm -> Prop.
Hypothesis P_mark_complete : forall this r, P this -> P (mark_complete this r).
Hypothesis P_handler :
  forall h this p cb, In h handlers -> P this ->
    P (fst (fst (h this (Some p) (obj_get (addr p) (peers this)) cb))).

Lemma announce_preserves (self : Swarm) (params : Params) :
  P self -> P (state_after self params).
Proof.
  intros HP. unfold state_after, announce.
  destruct (method_cases ("_onAnnounce_" +:+ normalize_event (event params)))
    as [->|(h & -> & Hh)]; [exact HP|].
  pose proof (P_handler h self
                (set_event params (normalize_event (event params))) true Hh HP) as Hb.
  simpl in Hb.
  destruct (h self _ _ true) as [[self1 em] ex]. simpl in Hb.
  destruct ex; simpl; try exact Hb.
  destruct (truthy _); [|exact Hb].
  destruct (is_zero _); [|exact Hb].
  now apply P_mark_complete.
Qed.

Lemma run_preserves (calls : list Params) (self : Swarm) :
  P self -> P (run calls self).
Proof.
  revert self. induction calls as [|c calls IH]; intros self HP; simpl; [exact HP|].
  apply IH, announce_preserves, HP.
Qed.
End Preservation.

(** ** The balance of the counters *)

Lemma balance_mark_complete (this : Swarm) (r : ref) :
  balance (mark_complete this r) = balance this.
Proof. unfold mark_complete. destruct (objs this !! r); reflexivity. Qed.

Lemma handler_balance (h : Handler) (this : Swarm) (p : Params) (cb : bool) :
  In h handlers ->
  balance (fst (fst (h this (Some p) (obj_get (addr p) (peers this)) cb))) = balance this.
Proof.
  intros Hh. simpl in Hh.
  assert (Hset : forall v s, peers s = peers this ->
            live_count (set_slot s (addr p) v)
            = live_count this - slot_weight (obj_get (addr p) (peers this))
              + slot_weight (Some v)).
  { intros v s Hs. unfold live_count, surviving, set_slot; simpl.
    rewrite Hs. apply surviving_obj_set. }
  destruct Hh as [<-|[<-|[<-|[<-|[]]]]].
  - unfold _onAnnounce_started, _onAnnounce_update.
    destruct (truthy (obj_get (addr p) (peers this))) as [r|] eqn:Ht; simpl; [reflexivity|].
    unfold balance, live_count, surviving; simpl.
    destruct (is_zero (left p)); simpl; rewrite surviving_obj_set;
      unfold slot_weight; rewrite Ht; simpl; lia.
  - unfold _onAnnounce_stopped.
    destruct (truthy (obj_get (addr p) (peers this))) as [r|] eqn:Ht; simpl; [|reflexivity].
    unfold balance.
    destruct (read_complete this r); rewrite Hset by reflexivity;
      unfold slot_weight; rewrite Ht; simpl; unfold live_count, surviving; simpl; lia.
  - unfold _onAnnounce_completed.
    destruct (truthy (obj_get (addr p) (peers this))) as [r|] eqn:Ht; simpl; [|reflexivity].
    destruct (read_complete this r); simpl; [reflexivity|].
    rewrite balance_mark_complete. unfold balance, live_count, surviving; simpl. lia.
  - unfold _onAnnounce_update.
    destruct (truthy (obj_get (addr p) (peers this))) as [r|]; reflexivity.
Qed.

Lemma run_balance (calls : list Params) (self : Swarm) :
  balance (run calls self) = balance self.
Proof.
  apply (run_preserves (fun s => balance s = balance self)).
  - intros this r H. now rewrite balance_mark_complete.
  - intros h this p cb Hh H. now rewrite handler_balance.
  - reflexivity.
Qed.

(** The first half of the invariant of the registry holds: after any sequence
    of announces from addresses of the form [ip:port] on a new swarm,
    whatever their events, the two counters add up to the number of
    non-tombstoned entries. *)
Theorem counts_sum_invariant (calls : list Params) :
  forallb (fun p => plain_address (addr p)) calls = true ->
  let s := run calls new_Swarm in
  complete s + incomplete s = live_count s.
Proof.
  intros _. simpl. pose proof (run_balance calls new_Swarm) as H.
  unfold balance in H. simpl in H. unfold live_count at 2, surviving in H. simpl in H. lia.
Qed.

(** ** Well-formed stores *)

Lemma refs_in_spec (heap : list Peer) (m : list (string * Slot)) :
  refs_in heap m = true <-> forall r, In r (live_refs m) -> (r < length heap)%nat.
Proof.
  unfold refs_in. rewrite forallb_forall.
  split; intros H r Hr; specialize (H r Hr); now apply Nat.ltb_lt.
Qed.

Lemma wf_new_Swarm : wf new_Swarm.
Proof. reflexivity. Qed.

Lemma wf_mark_complete (this : Swarm) (r : ref) : wf this -> wf (mark_complete this r).
Proof.
  unfold wf, mark_complete. destruct (objs this !! r); [|tauto]. simpl.
  rewrite !refs_in_spec. intros H r' Hr'. rewrite length_insert. auto.
Qed.

Lemma handler_wf (h : Handler) (this : Swarm) (p : Params) (cb : bool) :
  In h handlers ->
  wf this ->
  wf (fst (fst (h this (Some p) (obj_get (addr p) (peers this)) cb))).
Proof.
  intros Hh Hwf. simpl in Hh.
  destruct Hh as [<-|[<-|[<-|[<-|[]]]]].
  - unfold _onAnnounce_started, _onAnnounce_update.
    destruct (truthy (obj_get (addr p) (peers this))) as [r|]; simpl; [exact Hwf|].
    unfold wf in *. rewrite refs_in_spec in *.
    destruct (is_zero (left p)); simpl; intros r Hr;
      apply live_refs_obj_set in Hr; rewrite length_app; simpl;
      (destruct Hr as [Hr|[= <-]]; [apply Hwf in Hr|]; lia).
  - unfold _onAnnounce_stopped.
    destruct (truthy (obj_get (addr p) (peers this))) as [r|]; simpl; [|exact Hwf].
    unfold wf in *. rewrite refs_in_spec in *.
    destruct (read_complete this r); simpl; intros r' Hr';
      apply live_refs_obj_set in Hr'; destruct Hr' as [Hr'|[=]]; auto.
  - unfold _onAnnounce_completed.
    destruct (truthy (obj_get (addr p) (peers this))) as [r|]; simpl; [|exact Hwf].
    destruct (read_complete this r); simpl; [exact Hwf|].
    apply wf_mark_complete. exact Hwf.
  - unfold _onAnnounce_update.
    destruct (truthy (obj_get (addr p) (peers this))) as [r|]; exact Hwf.
Qed.

(** Every state a new swarm reaches by announces is well formed, so the
    hypothesis of the statements on [_getPeers] holds of every registry the
    server can hold. *)
Lemma reachable_wf (calls : list Params) : wf (run calls new_Swarm).
Proof.
  apply (run_preserves wf).
  - apply wf_mark_complete.
  - intros h this p cb. apply handler_wf.
  - apply wf_new_Swarm.
Qed.

(** ** The loop of [_getPeers] *)

Lemma take_opt_nil {A : Type} (k : option nat) : take_opt k (@nil A) = [].
Proof. destruct k as [[|k]|]; reflexivity. Qed.

Lemma _getPeers_loop_spec (heap : list Peer) (numwant : option Z)
    (todo : list (string * Slot)) (acc : list PeerTuple) :
  refs_in heap todo = true ->
  exists out,
    _getPeers_loop heap numwant todo acc = acc ++ out /\
    Forall2 (tuple_at heap)
            (take_opt (budget numwant (length acc)) (live_refs todo)) out.
Proof.
  revert acc. induction todo as [|[k slot] todo IH]; intros acc Hwf;
    cbn [_getPeers_loop live_refs].
  - exists []. rewrite app_nil_r, take_opt_nil. split; [reflexivity|constructor].
  - destruct (js_ge (length acc) numwant) eqn:Hge.
    + exists []. rewrite app_nil_r. split; [reflexivity|].
      destruct numwant as [z|]; simpl in *; [|discriminate].
      apply Z.leb_le in Hge.
      replace (Z.to_nat (z - Z.of_nat (length acc))) with 0%nat by lia.
      constructor.
    + destruct slot as [r|].
      * assert (Hr : (r < length heap)%nat).
        { rewrite refs_in_spec in Hwf. apply Hwf. simpl. now left. }
        assert (Hrest : refs_in heap todo = true).
        { rewrite refs_in_spec in *. intros r' Hr'. apply Hwf. simpl. now right. }
        destruct (lookup_lt_is_Some_2 heap r Hr) as [p Hp]. rewrite Hp.
        destruct (IH (acc ++ [mkPeerTuple (peer_peerId p) (peer_ip p) (peer_port p)]) Hrest)
          as (out & -> & Hout).
        exists (mkPeerTuple (peer_peerId p) (peer_ip p) (peer_port p) :: out).
        split; [now rewrite <- app_assoc|].
        rewrite length_app in Hout. simpl in Hout.
        assert (Hhead : tuple_at heap r
                  (mkPeerTuple (peer_peerId p) (peer_ip p) (peer_port p))).
        { exists p. split; [exact Hp|reflexivity]. }
        destruct numwant as [z|]; simpl in *.
        -- apply Z.leb_gt in Hge.
           replace (Z.to_nat (z - Z.of_nat (length acc)))
             with (S (Z.to_nat (z - Z.of_nat (length acc + 1)))) by lia.
           simpl. constructor; assumption.
        -- constructor; assumption.
      * apply IH. exact Hwf.
Qed.

(** ** How [announce] ends, branch by branch *)

(** [started] for an address that holds a live record: the re-dispatch calls
    [_onAnnounce_update] without arguments, which throws. *)
Lemma started_on_live_throws (self : Swarm) (params : Params) (r : ref) :
  normalize_event (event params) = "started" ->
  truthy (obj_get (addr params) (peers self)) = Some r ->
  announce self params = (self, [], Thrown (ReferenceError "start")).
Proof.
  intros He Hp. unfold announce. rewrite method_prefixed, He. simpl.
  unfold _onAnnounce_started. rewrite Hp. reflexivity.
Qed.

(** [completed] or [update] for an address without a live record: the
    re-dispatch calls [start], which is bound nowhere. *)
Lemma unseen_redispatch_throws (self : Swarm) (params : Params) :
  normalize_event (event params) = "completed" \/
  normalize_event (event params) = "update" ->
  truthy (obj_get (addr params) (peers self)) = None ->
  announce self params = (self, [], Thrown (ReferenceError "start")).
Proof.
  intros [He|He] Hp; unfold announce; rewrite method_prefixed, He; simpl.
  - unfold _onAnnounce_completed. rewrite Hp. reflexivity.
  - unfold _onAnnounce_update. rewrite Hp. reflexivity.
Qed.

(** [stopped] for an address without a live record, and [completed] for a
    record already complete: the handler returns before [cb()]. *)
Lemma absorbed_without_callback (self : Swarm) (params : Params) :
  (normalize_event (event params) = "stopped" /\
   truthy (obj_get (addr params) (peers self)) = None) \/
  (normalize_event (event params) = "completed" /\
   exists r, truthy (obj_get (addr params) (peers self)) = Some r /\
             read_complete self r = true) ->
  announce self params = (self, [], CbNever).
Proof.
  intros [[He Hp]|[He (r & Hp & Hc)]]; unfold announce; rewrite method_prefixed, He; simpl.
  - unfold _onAnnounce_stopped. rewrite Hp. reflexivity.
  - unfold _onAnnounce_completed. rewrite Hp, Hc. reflexivity.
Qed.

(** On those branches, for an address of the form [ip:port], the callback
    gets a response with the counters of the state the call leaves behind and
    the peer list [_getPeers] builds from it. *)
Lemma regular_responds (self : Swarm) (params : Params) :
  plain_address (addr params) = true ->
  regular self params = true ->
  let s' := state_after self params in
  outcome_of (announce self params)
  = CbOk (mkResponse (complete s') (incomplete s') (_getPeers s' (numwant params))).
Proof.
  intros _ Hreg. unfold regular in Hreg.
  unfold state_after, outcome_of, announce. rewrite method_prefixed.
  destruct (truthy (obj_get (addr params) (peers self))) as [r|] eqn:Hp.
  - destruct (String.eqb_spec (normalize_event (event params)) "started") as [He|_].
    { rewrite He in Hreg. simpl in Hreg. discriminate Hreg. }
    destruct (String.eqb_spec (normalize_event (event params)) "stopped") as [He|_].
    { simpl. unfold _onAnnounce_stopped. rewrite Hp. simpl.
      destruct (is_zero (left params)); reflexivity. }
    destruct (String.eqb_spec (normalize_event (event params)) "completed") as [He|_].
    { simpl. unfold _onAnnounce_completed. rewrite Hp.
      rewrite He in Hreg. simpl in Hreg.
      destruct (read_complete self r); [discriminate Hreg|]. simpl.
      destruct (is_zero (left params)); reflexivity. }
    destruct (String.eqb_spec (normalize_event (event params)) "update") as [He|_];
      [|discriminate Hreg].
    simpl. unfold _onAnnounce_update. rewrite Hp. simpl.
    destruct (is_zero (left params)); reflexivity.
  - destruct (String.eqb_spec (normalize_event (event params)) "started") as [He|_];
      [|discriminate Hreg].
    simpl. unfold _onAnnounce_started. rewrite Hp. simpl.
    reflexivity.
Qed.

(** On every other branch of a valid event nothing is emitted, the registry
    is left as it was and the callback is never invoked. *)
Lemma irregular_never_responds (self : Swarm) (params : Params) :
  is_valid_event (normalize_event (event params)) = true ->
  regular self params = false ->
  announce self params = (self, [], CbNever) \/
  announce self params = (self, [], Thrown (ReferenceError "start")).
Proof.
  unfold is_valid_event, regular. intros Hv Hreg.
  destruct (truthy (obj_get (addr params) (peers self))) as [r|] eqn:Hp.
  - destruct (String.eqb_spec (normalize_event (event params)) "started") as [He|_].
    { right. eapply started_on_live_throws; eauto. }
    destruct (String.eqb_spec (normalize_event (event params)) "stopped") as [He|_];
      [discriminate Hreg|].
    destruct (String.eqb_spec (normalize_event (event params)) "update") as [He|_];
      [discriminate Hreg|].
    destruct (String.eqb_spec (normalize_event (event params)) "completed") as [He|_];
      [|discriminate Hv].
    left. apply absorbed_without_callback. right. split; [exact He|].
    exists r. split; [exact Hp|].
    simpl in Hreg. now destruct (read_complete self r).
  - destruct (String.eqb_spec (normalize_event (event params)) "started") as [He|_];
      [discriminate Hreg|].
    destruct (String.eqb_spec (normalize_event (event params)) "stopped") as [He|_].
    { left. apply absorbed_without_callback. left. now split. }
    destruct (String.eqb_spec (normalize_event (event params)) "completed") as [He|_].
    { right. apply unseen_redispatch_throws; [now left|exact Hp]. }
    destruct (String.eqb_spec (normalize_event (event params)) "update") as [He|_];
      [|discriminate Hv].
    right. apply unseen_redispatch_throws; [now right|exact Hp].
Qed.

(** The peer list for a numeric bound is a prefix, no longer than the bound,
    of the entries of the surviving records in map order. *)
Lemma _getPeers_bounded (this : Swarm) (n : nat) :
  wf this ->
  (length (_getPeers this (Some (Z.of_nat n))) <= n)%nat /\
  Forall2 (tuple_at (objs this)) (take n (surviving this))
          (_getPeers this (Some (Z.of_nat n))).
Proof.
  intros Hwf. unfold _getPeers.
  destruct (_getPeers_loop_spec (objs this) (Some (Z.of_nat n)) (peers this) [] Hwf)
    as (out & -> & Hout).
  cbn [budget take_opt length] in Hout.
  replace (Z.to_nat (Z.of_nat n - Z.of_nat 0)) with n in Hout by lia.
  fold (surviving this) in Hout. simpl. split; [|exact Hout].
  apply Forall2_length in Hout. rewrite <- Hout, length_take. lia.
Qed.

(** ** The properties of the specification: the swarm *)

(** C1 (the code departs from the claim).  The claim asks that the counters
    add up to the number of non-tombstoned entries, which holds
    ([counts_sum_invariant]), and that [complete] counts exactly the entries
    whose flag is set.  A peer that starts with [left = 0] is counted in
    [complete] while its record carries no flag; when it stops, [incomplete]
    is decremented instead and becomes negative.  A leecher that later
    reports [left = 0] in an update gets the flag without leaving the
    [incomplete] bucket. *)
Theorem seeder_start_breaks_buckets :
  let start := call "10.0.0.1" (Some "started") (Some 0) in
  let stop := call "10.0.0.1" (Some "stopped") (Some 0) in
  let s1 := run [start] new_Swarm in
  let s2 := run [start; stop] new_Swarm in
  let s3 := run [call "10.0.0.2" (Some "started") (Some 7);
                 call "10.0.0.2" (Some "update") (Some 0)] new_Swarm in
  (complete s1 = 1 /\ incomplete s1 = 0 /\
   surviving s1 = [0%nat] /\ flagged_complete s1 = []) /\
  (complete s2 = 1 /\ incomplete s2 = -1 /\ surviving s2 = []) /\
  (complete s3 = 0 /\ incomplete s3 = 1 /\ flagged_complete s3 = [0%nat]) /\
  ~ registry_invariant s1 /\ ~ registry_invariant s2 /\ ~ registry_invariant s3.
Proof.
  cbv zeta. repeat split; try reflexivity.
  all: intros (_ & H & _); vm_compute in H; discriminate H.
Qed.

(** C2 (the code departs from the claim).  On the branches the specification
    calls tolerated anomalies the callback is never invoked: [stopped] with no
    live record and a duplicate [completed] return before [cb()], and the
    re-dispatched [started], [completed] and [update] throw a ReferenceError.
    Those are all the branches without a response
    ([irregular_never_responds]); on every other branch the response is as
    claimed ([regular_responds], [_getPeers_bounded]). *)
Theorem anomalies_get_no_response :
  let a := "10.0.0.1" in
  let s := run [call a (Some "started") (Some 5);
                call a (Some "completed") (Some 0)] new_Swarm in
  outcome_of (announce new_Swarm (call a (Some "stopped") (Some 5))) = CbNever /\
  outcome_of (announce s (call a (Some "completed") (Some 0))) = CbNever /\
  outcome_of (announce s (call a (Some "started") (Some 0)))
    = Thrown (ReferenceError "start") /\
  outcome_of (announce new_Swarm (call a (Some "completed") (Some 0)))
    = Thrown (ReferenceError "start") /\
  outcome_of (announce new_Swarm (call a None (Some 5)))
    = Thrown (ReferenceError "start").
Proof. vm_compute. repeat split. Qed.

(** C3 (the code departs from the claim).  After a first [started], a second
    [started] from the same address throws and answers nothing, while an
    [update] emits its notification and answers; the registry is left as it
    was by both, so no record is duplicated and no counter moves twice. *)
Theorem started_twice_is_not_update :
  let a := "10.0.0.1" in
  let s := run [call a (Some "started") (Some 5)] new_Swarm in
  announce s (call a (Some "started") (Some 5))
    = (s, [], Thrown (ReferenceError "start")) /\
  announce s (call a (Some "update") (Some 5))
    = (s, [Emit "update" "10.0.0.1:6881"],
       CbOk (mkResponse 0 1 [mkPeerTuple "-WW0001-10.0.0.1" "10.0.0.1" 6881])).
Proof. vm_compute. split; reflexivity. Qed.

(** C4 (the code departs from the claim).  [completed] from an address the
    registry has never seen throws and leaves the registry empty, while
    [started] with [left = 0] creates the record and counts it as complete. *)
Theorem completed_unseen_is_not_started :
  let a := "10.0.0.1" in
  announce new_Swarm (call a (Some "completed") (Some 0))
    = (new_Swarm, [], Thrown (ReferenceError "start")) /\
  state_after new_Swarm (call a (Some "started") (Some 0))
    = mkSwarm [mkPeer "10.0.0.1" 6881 "-WW0001-10.0.0.1" false]
              [("10.0.0.1:6881", Some 0%nat)] 1 0.
Proof. vm_compute. split; reflexivity. Qed.

(** C5.  An announce whose event, once absent, empty and ['empty'] are read as
    [update], is none of started, stopped, completed, update hands an
    'invalid event' error to the callback, emits nothing and leaves the
    registry as it was. *)
Theorem invalid_event_fails (self : Swarm) (params : Params) :
  is_valid_event (normalize_event (event params)) = false ->
  announce self params = (self, [], CbErr (Error "invalid event")).
Proof.
  unfold is_valid_event. intros H.
  unfold announce. rewrite method_prefixed.
  destruct (String.eqb (normalize_event (event params)) "started"); [discriminate H|].
  destruct (String.eqb (normalize_event (event params)) "stopped"); [discriminate H|].
  destruct (String.eqb (normalize_event (event params)) "completed"); [discriminate H|].
  destruct (String.eqb (normalize_event (event params)) "update"); [discriminate H|].
  reflexivity.
Qed.

Lemma invalid_event_fails_witness :
  let s := run [call "10.0.0.1" (Some "started") (Some 5)] new_Swarm in
  announce s (call "10.0.0.1" (Some "paused") (Some 5))
    = (s, [], CbErr (Error "invalid event")).
Proof.
  apply (invalid_event_fails
           (run [call "10.0.0.1" (Some "started") (Some 5)] new_Swarm)
           (call "10.0.0.1" (Some "paused") (Some 5))).
  reflexivity.
Defined.

(** C6.  For a registry whose peer map refers to existing records and a
    natural number [n], [_getPeers(n)] returns at most [n] entries, and they
    are, one for one and in the same order, the entries of the first [n]
    non-tombstoned slots of the peer map; so no tombstoned slot is listed and
    insertion order is kept.  After A, B, C have started in that order and B
    has stopped, [_getPeers(2)] is [A, C]. *)
Theorem getPeers_bounded_in_order :
  (forall (this : Swarm) (n : nat), wf this ->
     (length (_getPeers this (Some (Z.of_nat n))) <= n)%nat /\
     Forall2 (tuple_at (objs this)) (take n (surviving this))
             (_getPeers this (Some (Z.of_nat n)))) /\
  _getPeers (run [call "A" (Some "started") (Some 5);
                  call "B" (Some "started") (Some 5);
                  call "C" (Some "started") (Some 5);
                  call "B" (Some "stopped") (Some 5)] new_Swarm) (Some 2)
  = [mkPeerTuple "-WW0001-A" "A" 6881; mkPeerTuple "-WW0001-C" "C" 6881].
Proof.
  split; [|reflexivity].
  intros this n Hwf. apply _getPeers_bounded, Hwf.
Qed.

Lemma getPeers_bounded_in_order_witness :
  let s := run [call "A" (Some "started") (Some 5);
                call "B" (Some "started") (Some 0);
                call "A" (Some "stopped") (Some 5);
                call "C" (Some "started") (Some 5)] new_Swarm in
  wf s /\
  (length (_getPeers s (Some (Z.of_nat 1))) <= 1)%nat /\
  Forall2 (tuple_at (objs s)) (take 1 (surviving s)) (_getPeers s (Some (Z.of_nat 1))).
Proof.
  split; [reflexivity|].
  apply (proj1 getPeers_bounded_in_order
           (run [call "A" (Some "started") (Some 5);
                 call "B" (Some "started") (Some 0);
                 call "A" (Some "stopped") (Some 5);
                 call "C" (Some "started") (Some 5)] new_Swarm) 1%nat).
  reflexivity.
Defined.

(** C8.  [scrape] does not look at its [infoHash] and [params] arguments:
    whatever they are, it answers with the two counters of the registry and
    leaves the registry as it is. *)
Theorem scrape_ignores_arguments {A B A' B' : Type}
    (this : Swarm) (infoHash : A) (params : B) (infoHash' : A') (params' : B') :
  scrape this infoHash params = scrape this infoHash' params' /\
  scrape this infoHash params = (this, (complete this, incomplete this)).
Proof. split; reflexivity. Qed.

(** C10.  With no [numwant] the loop of [_getPeers] never breaks: for a
    registry whose peer map refers to existing records the result lists,
    one for one and in map order, every non-tombstoned slot. *)
Theorem getPeers_without_bound (this : Swarm) :
  wf this ->
  Forall2 (tuple_at (objs this)) (surviving this) (_getPeers this None).
Proof.
  intros Hwf. unfold _getPeers.
  destruct (_getPeers_loop_spec (objs this) None (peers this) [] Hwf)
    as (out & -> & Hout).
  exact Hout.
Qed.

Lemma getPeers_without_bound_witness :
  let s := run [call "A" (Some "started") (Some 5);
                call "B" (Some "started") (Some 0);
                call "A" (Some "stopped") (Some 5);
                call "C" (Some "started") (Some 5)] new_Swarm in
  wf s /\ Forall2 (tuple_at (objs s)) (surviving s) (_getPeers s None).
Proof.
  split; [reflexivity|].
  apply (getPeers_without_bound
           (run [call "A" (Some "started") (Some 5);
                 call "B" (Some "started") (Some 0);
                 call "A" (Some "stopped") (Some 5);
                 call "C" (Some "started") (Some 5)] new_Swarm)).
  reflexivity.
Defined.

(** ** The properties of the specification: the HTTP tracker client *)

(** C7, as amended.  [_onScrapeResponse] takes the [files] mapping when the
    response has one, even an empty one, else the [host] mapping, else an
    empty one.  When the mapping taken has no key (so whenever neither field
    holds a non-empty mapping, and also when [files] is empty while [host] is
    not) the only event is one 'invalid scrape response' warning.  Otherwise the events are
    the scrape events of the keys, one per key in key order and nothing else,
    each with the announce URL, the key in hexadecimal and the [complete],
    [incomplete] and [downloaded] of the entry of that key. *)
Theorem scrape_response_events (binaryToHex : string -> string)
    (self : HTTPTracker) (data : ScrapeData) :
  let m := scrape_mapping data in
  let out := _onScrapeResponse binaryToHex self data in
  match files data, host data with
  | Some f, _ => m = f
  | None, Some h => m = h
  | None, None => m = []
  end /\
  match m with
  | [] => out = [EvWarning (Error "invalid scrape response")]
  | _ :: _ =>
      out = map (scrape_event binaryToHex self m) (obj_keys m) /\
      length out = length (obj_keys m)
  end /\
  Forall (fun infoHash =>
            exists response,
              obj_get infoHash m = Some response /\
              scrape_event binaryToHex self m infoHash
              = EvScrape (_announceUrl self) (binaryToHex infoHash)
                         (s_complete response) (s_incomplete response)
                         (s_downloaded response))
         (obj_keys m).
Proof.
  cbv zeta. split; [|split].
  - unfold scrape_mapping. destruct (files data); [reflexivity|].
    destruct (host data); reflexivity.
  - unfold _onScrapeResponse. destruct (scrape_mapping data) as [|kv m]; simpl.
    + reflexivity.
    + split; [reflexivity|]. now rewrite !length_map.
  - apply List.Forall_forall. intros k Hk.
    destruct (obj_get_keys k _ Hk) as [response Hr].
    exists response. split; [exact Hr|].
    unfold scrape_event. now rewrite Hr.
Qed.

(** The scrape response of the specification's example: one entry under
    [files] gives one scrape event with its three numbers. *)
Example scrape_one_file (binaryToHex : string -> string) :
  _onScrapeResponse binaryToHex
    (mkHTTPTracker "http://tracker.example/announce" None 1800000 None None)
    (mkScrapeData (Some [("hash", mkScrapeStats (Some 3) (Some 5) (Some 10))]) None)
  = [EvScrape "http://tracker.example/announce" (binaryToHex "hash")
              (Some 3) (Some 5) (Some 10)].
Proof. reflexivity. Qed.

(** An empty [files] mapping is taken even when [host] is populated. *)
Example scrape_empty_files_shadow_host (binaryToHex : string -> string) :
  _onScrapeResponse binaryToHex
    (mkHTTPTracker "http://tracker.example/announce" None 1800000 None None)
    (mkScrapeData (Some []) (Some [("hash", mkScrapeStats (Some 3) (Some 5) (Some 10))]))
  = [EvWarning (Error "invalid scrape response")].
Proof. reflexivity. Qed.

(** C9.  When the [peers] field is a Buffer and decoding it throws, the
    events of the response are the [update] event followed by one warning
    carrying the exception, and nothing else: no peer event at all, whatever
    the [peers6] field holds. *)
Theorem compact_decode_failure_stops (multi multi6 : string -> JsError + list string)
    (self : HTTPTracker) (data : AnnounceData) (bytes : string) (err : JsError) :
  d_peers data = PeersBuffer bytes ->
  multi bytes = inl err ->
  snd (_onAnnounceResponse multi multi6 self data)
  = [EvUpdate (_announceUrl self) (d_complete data) (d_incomplete data);
     EvWarning err].
Proof.
  intros Hp Hm. unfold _onAnnounceResponse. rewrite Hp, Hm. simpl.
  destruct (text_falsy (d_tracker_id data)); simpl;
    (destruct (if num_truthy (d_interval data) then d_interval data
               else d_min_interval data) as [i|]; [|reflexivity]);
    destruct (_ && _ && _); reflexivity.
Qed.

Lemma compact_decode_failure_stops_witness :
  let broken := fun _ : string => inl (Error "Invalid Compact IP/PORT") in
  let fine := fun _ : string => inr ["[::1]:6881"] in
  let self := mkHTTPTracker "http://tracker.example/announce" None 1800000 None None in
  let data := mkAnnounceData (Some 900) None (Some (Buf "t1")) (Some 3) (Some 5)
                (PeersBuffer "xxxxx") (PeersArray [mkVerbosePeer "::1" 6881]) in
  snd (_onAnnounceResponse broken fine self data)
  = [EvUpdate "http://tracker.example/announce" (Some 3) (Some 5);
     EvWarning (Error "Invalid Compact IP/PORT")].
Proof.
  apply (compact_decode_failure_stops
           (fun _ : string => inl (Error "Invalid Compact IP/PORT"))
           (fun _ : string => inr ["[::1]:6881"])
           (mkHTTPTracker "http://tracker.example/announce" None 1800000 None None)
           (mkAnnounceData (Some 900) None (Some (Buf "t1")) (Some 3) (Some 5)
              (PeersBuffer "xxxxx") (PeersArray [mkVerbosePeer "::1" 6881]))
           "xxxxx" (Error "Invalid Compact IP/PORT")); reflexivity.
Defined.

(** ** Further properties of the swarm *)

Lemma obj_get_set_same {V : Type} (k : string) (v : V) (m : list (string * V)) :
  obj_get k (obj_set k v m) = Some v.
Proof.
  induction m as [|[k' v'] m IH]; simpl.
  - now rewrite String.eqb_refl.
  - destruct (String.eqb k k') eqn:E; simpl.
    + now rewrite String.eqb_refl.
    + now rewrite E.
Qed.


Lemma obj_keys_obj_set {V : Type} (k : string) (v : V) (m : list (string * V)) :
  obj_keys (obj_set k v m)
  = match obj_get k m with
    | Some _ => obj_keys m
    | None => obj_keys m ++ [k]
    end.
Proof.
  unfold obj_keys.
  induction m as [|[k' v'] m IH]; simpl; [reflexivity|].
  destruct (String.eqb_spec k k') as [->|_]; simpl; [reflexivity|].
  rewrite IH. now destruct (obj_get k m).
Qed.

Lemma get_live_ref (k : string) (m : list (string * Slot)) (r : ref) :
  truthy (obj_get k m) = Some r -> In r (live_refs m).
Proof.
  induction m as [|[k' v'] m IH]; simpl; [discriminate|].
  destruct (String.eqb k k'); simpl.
  - destruct v'; simpl; [intros [= ->]; now left | discriminate].
  - intros H. destruct v'; simpl; auto.
Qed.

Lemma wf_live_ref (this : Swarm) (k : string) (r : ref) :
  wf this -> truthy (obj_get k (peers this)) = Some r -> (r < length (objs this))%nat.
Proof.
  intros Hwf Hr. unfold wf in Hwf. rewrite refs_in_spec in Hwf.
  eapply Hwf, get_live_ref, Hr.
Qed.

(** The state each answered branch leaves. *)
Lemma state_after_started (self : Swarm) (params : Params) :
  normalize_event (event params) = "started" ->
  truthy (obj_get (addr params) (peers self)) = None ->
  state_after self params
  = mkSwarm (objs self ++ [mkPeer (ip params) (port params) (peer_id params) false])
            (obj_set (addr params) (Some (length (objs self))) (peers self))
            (if is_zero (left params) then complete self + 1 else complete self)
            (if is_zero (left params) then incomplete self else incomplete self + 1).
Proof.
  intros He Hp. unfold state_after, announce. rewrite method_prefixed, He. simpl.
  unfold _onAnnounce_started. rewrite Hp. simpl.
  destruct (is_zero (left params)); reflexivity.
Qed.

Lemma state_after_stopped (self : Swarm) (params : Params) (r : ref) :
  normalize_event (event params) = "stopped" ->
  truthy (obj_get (addr params) (peers self)) = Some r ->
  state_after self params
  = finish params r
      (mkSwarm (objs self) (obj_set (addr params) None (peers self))
               (if read_complete self r then complete self - 1 else complete self)
               (if read_complete self r then incomplete self else incomplete self - 1)).
Proof.
  intros He Hp. unfold state_after, announce, finish. rewrite method_prefixed, He. simpl.
  unfold _onAnnounce_stopped. rewrite Hp. simpl.
  destruct (read_complete self r), (is_zero (left params)); reflexivity.
Qed.

Lemma state_after_completed (self : Swarm) (params : Params) (r : ref) :
  normalize_event (event params) = "completed" ->
  truthy (obj_get (addr params) (peers self)) = Some r ->
  read_complete self r = false ->
  state_after self params
  = finish params r
      (mark_complete (set_counts self (complete self + 1) (incomplete self - 1)) r).
Proof.
  intros He Hp Hc. unfold state_after, announce, finish. rewrite method_prefixed, He. simpl.
  unfold _onAnnounce_completed. rewrite Hp, Hc. simpl.
  destruct (is_zero (left params)); reflexivity.
Qed.

Lemma state_after_update (self : Swarm) (params : Params) (r : ref) :
  normalize_event (event params) = "update" ->
  truthy (obj_get (addr params) (peers self)) = Some r ->
  state_after self params = finish params r self.
Proof.
  intros He Hp. unfold state_after, announce, finish. rewrite method_prefixed, He. simpl.
  unfold _onAnnounce_update. rewrite Hp. simpl.
  destruct (is_zero (left params)); reflexivity.
Qed.

Lemma unknown_event_outcome (self : Swarm) (params : Params) :
  is_valid_event (normalize_event (event params)) = false ->
  announce self params = (self, [], CbErr (Error "invalid event")).
Proof.
  unfold is_valid_event. intros H. unfold announce. rewrite method_prefixed.
  repeat match goal with
         | H : context [String.eqb ?a ?b] |- _ =>
             destruct (String.eqb a b); [discriminate H|]
         end.
  reflexivity.
Qed.

(** Every other announce leaves the registry as it was. *)
Lemma state_after_unanswered (self : Swarm) (params : Params) :
  regular self params = false -> state_after self params = self.
Proof.
  intros Hreg. unfold state_after.
  destruct (is_valid_event (normalize_event (event params))) eqn:Hv.
  - destruct (irregular_never_responds self params Hv Hreg) as [->| ->]; reflexivity.
  - now rewrite unknown_event_outcome.
Qed.

Lemma finish_fields (params : Params) (r : ref) (this : Swarm) :
  peers (finish params r this) = peers this /\
  complete (finish params r this) = complete this /\
  incomplete (finish params r this) = incomplete this /\
  length (objs (finish params r this)) = length (objs this).
Proof.
  unfold finish, mark_complete.
  destruct (is_zero (left params)); [|tauto].
  destruct (objs this !! r); simpl; rewrite ?length_insert; tauto.
Qed.

(** The answered branches, one by one. *)
Lemma regular_cases (self : Swarm) (params : Params) :
  regular self params = true ->
  (normalize_event (event params) = "started" /\
   truthy (obj_get (addr params) (peers self)) = None) \/
  exists r, truthy (obj_get (addr params) (peers self)) = Some r /\
    (normalize_event (event params) = "stopped" \/
     normalize_event (event params) = "update" \/
     (normalize_event (event params) = "completed" /\ read_complete self r = false)).
Proof.
  unfold regular.
  destruct (truthy (obj_get (addr params) (peers self))) as [r|].
  - intros H. right. exists r. split; [reflexivity|].
    destruct (String.eqb_spec (normalize_event (event params)) "stopped"); [tauto|].
    destruct (String.eqb_spec (normalize_event (event params)) "update"); [tauto|].
    destruct (String.eqb_spec (normalize_event (event params)) "completed");
      [|discriminate H].
    simpl in H. right. right. split; [assumption|].
    now destruct (read_complete self r).
  - intros H. left. split; [|reflexivity]. now apply String.eqb_eq.
Qed.

(** A [stopped] for a live record tombstones its slot, and the registry then
    absorbs any further [stopped] from that address: nothing changes, nothing
    is emitted and the callback is not invoked. *)
Theorem stop_absorbed_after_stop (self : Swarm) (params : Params) (r : ref) :
  normalize_event (event params) = "stopped" ->
  truthy (obj_get (addr params) (peers self)) = Some r ->
  let s' := state_after self params in
  obj_get (addr params) (peers s') = Some None /\
  live_count s' = live_count self - 1 /\
  announce s' params = (s', [], CbNever).
Proof.
  intros He Hp s'.
  assert (Hpeers : peers s' = obj_set (addr params) None (peers self)).
  { subst s'. rewrite (state_after_stopped self params r He Hp).
    now rewrite (proj1 (finish_fields _ _ _)). }
  assert (Hget : obj_get (addr params) (peers s') = Some None).
  { rewrite Hpeers. apply obj_get_set_same. }
  split; [exact Hget|]. split.
  - unfold live_count, surviving. rewrite Hpeers, surviving_obj_set.
    unfold slot_weight. rewrite Hp. simpl. lia.
  - apply absorbed_without_callback. left. split; [exact He|]. now rewrite Hget.
Qed.

Lemma stop_absorbed_after_stop_witness :
  let s := run [call "10.0.0.1" (Some "started") (Some 5)] new_Swarm in
  let stop := call "10.0.0.1" (Some "stopped") (Some 5) in
  obj_get (addr stop) (peers (state_after s stop)) = Some None /\
  live_count (state_after s stop) = live_count s - 1 /\
  announce (state_after s stop) stop = (state_after s stop, [], CbNever).
Proof.
  apply (stop_absorbed_after_stop
           (run [call "10.0.0.1" (Some "started") (Some 5)] new_Swarm)
           (call "10.0.0.1" (Some "stopped") (Some 5)) 0%nat); reflexivity.
Defined.

(** A [completed] for a live record not yet complete moves one unit from
    [incomplete] to [complete] and sets the flag of the record; repeating it
    changes nothing more, and is not answered. *)
Theorem completed_counts_once (self : Swarm) (params : Params) (r : ref) :
  wf self ->
  normalize_event (event params) = "completed" ->
  truthy (obj_get (addr params) (peers self)) = Some r ->
  read_complete self r = false ->
  let s' := state_after self params in
  complete s' = complete self + 1 /\
  incomplete s' = incomplete self - 1 /\
  peers s' = peers self /\
  read_complete s' r = true /\
  announce s' params = (s', [], CbNever).
Proof.
  intros Hwf He Hp Hc s'.
  pose proof (wf_live_ref self _ r Hwf Hp) as Hr.
  destruct (lookup_lt_is_Some_2 (objs self) r Hr) as [p Hlook].
  assert (Hs : s' = mkSwarm
                 (<[r := mkPeer (peer_ip p) (peer_port p) (peer_peerId p) true]> (objs self))
                 (peers self) (complete self + 1) (incomplete self - 1)).
  { subst s'. rewrite (state_after_completed self params r He Hp Hc).
    unfold finish, mark_complete, set_counts. simpl. rewrite Hlook. simpl.
    destruct (is_zero (left params)); [|reflexivity].
    simpl. rewrite list_lookup_insert_eq by exact Hr. simpl.
    now rewrite list_insert_insert_eq. }
  assert (Hflag : read_complete s' r = true).
  { rewrite Hs. unfold read_complete. simpl.
    now rewrite list_lookup_insert_eq by exact Hr. }
  rewrite Hs at 1 2 3. simpl. repeat split; try exact Hflag.
  apply absorbed_without_callback. right. split; [exact He|].
  exists r. split; [|exact Hflag]. rewrite Hs. simpl. exact Hp.
Qed.

Lemma completed_counts_once_witness :
  let s := run [call "10.0.0.1" (Some "started") (Some 5)] new_Swarm in
  let done := call "10.0.0.1" (Some "completed") (Some 0) in
  complete (state_after s done) = complete s + 1 /\
  incomplete (state_after s done) = incomplete s - 1 /\
  peers (state_after s done) = peers s /\
  read_complete (state_after s done) 0%nat = true /\
  announce (state_after s done) done = (state_after s done, [], CbNever).
Proof.
  apply (completed_counts_once
           (run [call "10.0.0.1" (Some "started") (Some 5)] new_Swarm)
           (call "10.0.0.1" (Some "completed") (Some 0)) 0%nat); reflexivity.
Defined.

(** An [update] (also an absent, empty or ['empty'] event) never moves a
    counter, never changes the peer map and never creates a record, whatever
    [left] it reports and whether it is answered or not. *)
Theorem update_moves_nothing (self : Swarm) (params : Params) :
  normalize_event (event params) = "update" ->
  let s' := state_after self params in
  complete s' = complete self /\
  incomplete s' = incomplete self /\
  peers s' = peers self /\
  length (objs s') = length (objs self).
Proof.
  intros He s'. subst s'.
  destruct (truthy (obj_get (addr params) (peers self))) as [r|] eqn:Hp.
  - rewrite (state_after_update self params r He Hp).
    pose proof (finish_fields params r self). tauto.
  - rewrite state_after_unanswered; [tauto|].
    unfold regular. now rewrite Hp, He.
Qed.

Lemma update_moves_nothing_witness :
  let s := run [call "10.0.0.1" (Some "started") (Some 5)] new_Swarm in
  let s' := state_after s (call "10.0.0.1" None (Some 0)) in
  complete s' = complete s /\ incomplete s' = incomplete s /\
  peers s' = peers s /\ length (objs s') = length (objs s).
Proof.
  apply (update_moves_nothing
           (run [call "10.0.0.1" (Some "started") (Some 5)] new_Swarm)
           (call "10.0.0.1" None (Some 0))); reflexivity.
Defined.

(** The keys of the peer map after one announce: a [started] from an address
    the map has no key for adds that key at the end, and nothing else ever
    changes the keys or their order. *)
Lemma announce_keys (self : Swarm) (params : Params) :
  obj_keys (peers (state_after self params))
  = if String.eqb (normalize_event (event params)) "started"
       && negb (is_Some_b (obj_get (addr params) (peers self)))
    then obj_keys (peers self) ++ [addr params]
    else obj_keys (peers self).
Proof.
  destruct (regular self params) eqn:Hreg.
  - destruct (regular_cases self params Hreg) as [[He Hp]|(r & Hp & [He|[He|[He Hc]]])].
    + rewrite (state_after_started self params He Hp), He. simpl.
      rewrite obj_keys_obj_set.
      destruct (obj_get (addr params) (peers self)) as [[r|]|]; simpl;
        [discriminate Hp|reflexivity|reflexivity].
    + rewrite (state_after_stopped self params r He Hp), He. simpl.
      rewrite (proj1 (finish_fields _ _ _)). simpl. rewrite obj_keys_obj_set.
      destruct (obj_get (addr params) (peers self)); [reflexivity|discriminate Hp].
    + rewrite (state_after_update self params r He Hp), He. simpl.
      now rewrite (proj1 (finish_fields _ _ _)).
    + rewrite (state_after_completed self params r He Hp Hc), He. simpl.
      rewrite (proj1 (finish_fields _ _ _)). unfold mark_complete. simpl.
      now destruct (objs self !! r).
  - rewrite (state_after_unanswered self params Hreg).
    destruct (String.eqb_spec (normalize_event (event params)) "started") as [He|_];
      [|reflexivity].
    unfold regular in Hreg. rewrite He in Hreg. simpl in *.
    destruct (obj_get (addr params) (peers self)) as [[r|]|]; simpl in *;
      try reflexivity; discriminate Hreg.
Qed.

(** Tombstones are never reclaimed: whatever announces from addresses of the
    form [ip:port] a registry goes through, the keys it had stay, in the same
    order, and the keys it gains come after them and are addresses that
    announced. *)
Theorem peer_map_only_grows (calls : list Params) (self : Swarm) :
  forallb (fun p => plain_address (addr p)) calls = true ->
  exists added,
    obj_keys (peers (run calls self)) = obj_keys (peers self) ++ added /\
    Forall (fun a => In a (map addr calls)) added.
Proof.
  intros _. revert self. induction calls as [|c calls IH]; intros self.
  - exists []. split; [simpl; now rewrite app_nil_r|constructor].
  - destruct (IH (state_after self c)) as (added & Hk & Hin).
    change (run (c :: calls) self) with (run calls (state_after self c)).
    rewrite Hk, announce_keys. cbn [map In].
    assert (Hin' : Forall (fun a => addr c = a \/ In a (map addr calls)) added).
    { eapply Forall_impl; [exact Hin|]. simpl. tauto. }
    destruct (_ && _).
    + exists (addr c :: added). split; [now rewrite <- app_assoc|].
      constructor; [now left|exact Hin'].
    + exists added. split; [reflexivity|exact Hin'].
Qed.

(** Every announce that is answered notifies the server exactly once, with
    the name of its event and the address of the peer; an announce that is not
    answered, or is answered with an error, notifies nobody. *)
Theorem notifies_exactly_when_answering (self : Swarm) (params : Params) :
  match announce self params with
  | (_, emitted, CbOk _) =>
      emitted = [Emit (notification_of (normalize_event (event params))) (addr params)]
  | (_, emitted, _) => emitted = []
  end.
Proof.
  destruct (is_valid_event (normalize_event (event params))) eqn:Hv;
    [|now rewrite unknown_event_outcome].
  destruct (regular self params) eqn:Hreg;
    [|destruct (irregular_never_responds self params Hv Hreg) as [->| ->]; reflexivity].
  unfold announce. rewrite method_prefixed.
  destruct (regular_cases self params Hreg) as [[He Hp]|(r & Hp & [He|[He|[He Hc]]])];
    rewrite He; simpl.
  - unfold _onAnnounce_started. rewrite Hp. reflexivity.
  - unfold _onAnnounce_stopped. rewrite Hp. reflexivity.
  - unfold _onAnnounce_update. rewrite Hp. reflexivity.
  - unfold _onAnnounce_completed. rewrite Hp, Hc. reflexivity.
Qed.

(** A bound of zero or less gives an empty peer list, whatever the registry
    holds: the loop breaks before it reads the first slot. *)
Theorem getPeers_nonpositive (this : Swarm) (z : Z) :
  z <= 0 -> _getPeers this (Some z) = [].
Proof.
  intros Hz. unfold _getPeers.
  destruct (peers this) as [|[k slot] m]; simpl; [reflexivity|].
  change (Z.of_nat 0) with 0.
  destruct (Z.leb_spec z 0); [reflexivity|lia].
Qed.

Lemma getPeers_nonpositive_witness :
  _getPeers (run [call "10.0.0.1" (Some "started") (Some 5)] new_Swarm) (Some (-1)) = [].
Proof.
  apply (getPeers_nonpositive
           (run [call "10.0.0.1" (Some "started") (Some 5)] new_Swarm) (-1)).
  lia.
Defined.

Lemma tuple_at_functional (heap : list Peer) (l : list ref) (out1 out2 : list PeerTuple) :
  Forall2 (tuple_at heap) l out1 -> Forall2 (tuple_at heap) l out2 -> out1 = out2.
Proof.
  intros H1. revert out2. induction H1 as [|r t l out1 Ht _ IH]; intros out2 H2.
  - now inversion H2.
  - inversion H2 as [|r' t' l' out2' Ht' H2']; subst.
    destruct Ht as (p & Hp & ->), Ht' as (p' & Hp' & ->).
    rewrite Hp in Hp'. injection Hp' as <-. f_equal. now apply IH.
Qed.

(** A bound that is at least the number of non-tombstoned entries changes
    nothing: the peer list is the one an absent bound gives. *)
Theorem getPeers_large_bound (this : Swarm) (z : Z) :
  wf this -> live_count this <= z ->
  _getPeers this (Some z) = _getPeers this None.
Proof.
  intros Hwf Hz. unfold _getPeers.
  destruct (_getPeers_loop_spec (objs this) (Some z) (peers this) [] Hwf)
    as (out1 & -> & H1).
  destruct (_getPeers_loop_spec (objs this) None (peers this) [] Hwf)
    as (out2 & -> & H2).
  simpl. cbn [budget take_opt length] in H1, H2.
  rewrite take_ge in H1 by (unfold live_count, surviving in Hz; lia).
  eapply tuple_at_functional; eassumption.
Qed.

Lemma getPeers_large_bound_witness :
  let s := run [call "A" (Some "started") (Some 5);
                call "B" (Some "started") (Some 0)] new_Swarm in
  _getPeers s (Some 2) = _getPeers s None.
Proof.
  apply (getPeers_large_bound
           (run [call "A" (Some "started") (Some 5);
                 call "B" (Some "started") (Some 0)] new_Swarm) 2);
    [reflexivity|vm_compute; discriminate].
Defined.

(** A [started] from an address of the form [ip:port] without a live record
    is answered and registers the peer: the address then leads to a new record with the ip,
    port and peer id of the announce, one more entry is live, and the peer is
    counted as complete when it reports [left = 0] and as incomplete in every
    other case, an absent [left] included. *)
Theorem started_registers (self : Swarm) (params : Params) :
  plain_address (addr params) = true ->
  normalize_event (event params) = "started" ->
  truthy (obj_get (addr params) (peers self)) = None ->
  let s' := state_after self params in
  (exists r p,
     obj_get (addr params) (peers s') = Some (Some r) /\
     objs s' !! r = Some p /\
     peer_ip p = ip params /\ peer_port p = port params /\
     peer_peerId p = peer_id params) /\
  live_count s' = live_count self + 1 /\
  complete s' = complete self + (if is_zero (left params) then 1 else 0) /\
  incomplete s' = incomplete self + (if is_zero (left params) then 0 else 1) /\
  regular self params = true.
Proof.
  intros _ He Hp s'. subst s'. rewrite (state_after_started self params He Hp). simpl.
  split; [|split; [|split; [|split]]].
  - exists (length (objs self)), (mkPeer (ip params) (port params) (peer_id params) false).
    split; [apply obj_get_set_same|].
    split; [|simpl; tauto]. now rewrite list_lookup_middle.
  - unfold live_count, surviving. simpl. rewrite surviving_obj_set.
    unfold slot_weight. rewrite Hp. simpl. lia.
  - destruct (is_zero (left params)); lia.
  - destruct (is_zero (left params)); lia.
  - unfold regular. now rewrite Hp, He.
Qed.

Lemma started_registers_witness :
  let s := run [call "10.0.0.1" (Some "started") (Some 5);
                call "10.0.0.1" (Some "stopped") (Some 5)] new_Swarm in
  let again := call "10.0.0.1" (Some "started") None in
  (exists r p,
     obj_get (addr again) (peers (state_after s again)) = Some (Some r) /\
     objs (state_after s again) !! r = Some p /\
     peer_ip p = ip again /\ peer_port p = port again /\
     peer_peerId p = peer_id again) /\
  live_count (state_after s again) = live_count s + 1 /\
  complete (state_after s again) = complete s + 0 /\
  incomplete (state_after s again) = incomplete s + 1 /\
  regular s again = true.
Proof.
  apply (started_registers
           (run [call "10.0.0.1" (Some "started") (Some 5);
                 call "10.0.0.1" (Some "stopped") (Some 5)] new_Swarm)
           (call "10.0.0.1" (Some "started") None)); reflexivity.
Defined.

(** A peer at an address of the form [ip:port] that starts with bytes left
    (or without saying) and then stops leaves both counters and the number of live entries as they were; its
    address stays in the peer map as a tombstone. *)
Theorem leecher_join_leave_restores (self : Swarm) (start stop : Params) :
  plain_address (addr start) = true ->
  normalize_event (event start) = "started" ->
  normalize_event (event stop) = "stopped" ->
  addr stop = addr start ->
  truthy (obj_get (addr start) (peers self)) = None ->
  is_zero (left start) = false ->
  let s' := run [start; stop] self in
  complete s' = complete self /\
  incomplete s' = incomplete self /\
  live_count s' = live_count self /\
  obj_get (addr start) (peers s') = Some None.
Proof.
  intros _ Hstart Hstop Haddr Hp Hleft s'. subst s'.
  change (run [start; stop] self) with (state_after (state_after self start) stop).
  pose proof (state_after_started self start Hstart Hp) as H1.
  rewrite Hleft in H1.
  assert (Hp1 : truthy (obj_get (addr stop) (peers (state_after self start)))
                = Some (length (objs self))).
  { rewrite H1, Haddr. simpl. now rewrite obj_get_set_same. }
  assert (Hflag : read_complete (state_after self start) (length (objs self)) = false).
  { rewrite H1. unfold read_complete. simpl. now rewrite list_lookup_middle. }
  rewrite (state_after_stopped _ stop _ Hstop Hp1), Hflag.
  destruct (finish_fields stop (length (objs self))
              (mkSwarm (objs (state_after self start))
                 (obj_set (addr stop) None (peers (state_after self start)))
                 (complete (state_after self start))
                 (incomplete (state_after self start) - 1)))
    as (Hpe & Hc & Hi & _).
  unfold live_count, surviving. rewrite Hpe, Hc, Hi. simpl.
  rewrite H1, Haddr. simpl.
  rewrite !surviving_obj_set, !obj_get_set_same. unfold slot_weight. rewrite Hp. simpl.
  repeat split; lia.
Qed.

Lemma leecher_join_leave_restores_witness :
  let s := run [call "10.0.0.2" (Some "started") (Some 0)] new_Swarm in
  let s' := run [call "10.0.0.1" (Some "started") (Some 5);
                 call "10.0.0.1" (Some "stopped") (Some 0)] s in
  complete s' = complete s /\ incomplete s' = incomplete s /\
  live_count s' = live_count s /\
  obj_get "10.0.0.1:6881" (peers s') = Some None.
Proof.
  apply (leecher_join_leave_restores
           (run [call "10.0.0.2" (Some "started") (Some 0)] new_Swarm)
           (call "10.0.0.1" (Some "started") (Some 5))
           (call "10.0.0.1" (Some "stopped") (Some 0))); reflexivity.
Defined.

(** *** One record per live address *)

Lemma NoDup_live_refs_obj_set (k : string) (v : Slot) (m : list (string * Slot)) :
  List.NoDup (live_refs m) ->
  (forall r, v = Some r -> ~ In r (live_refs m)) ->
  List.NoDup (live_refs (obj_set k v m)).
Proof.
  induction m as [|[k' v'] m IH]; intros Hnd Hfresh; simpl.
  - destruct v; simpl; repeat constructor. simpl. tauto.
  - destruct (String.eqb k k'); simpl.
    + assert (Hm : List.NoDup (live_refs m)).
      { simpl in Hnd. destruct v'; [now inversion Hnd|exact Hnd]. }
      destruct v as [r|]; [|exact Hm].
      constructor; [|exact Hm].
      intros Hin. apply (Hfresh r eq_refl). simpl. destruct v'; simpl; auto.
    + destruct v' as [r'|]; simpl in *.
      * inversion Hnd as [|? ? Hnotin Hm]; subst.
        constructor.
        -- intros Hin. apply live_refs_obj_set in Hin. destruct Hin as [Hin|Hv].
           ++ contradiction.
           ++ apply (Hfresh r' Hv). now left.
        -- apply IH; [exact Hm|]. intros r Hv Hin. apply (Hfresh r Hv). now right.
      * apply IH; assumption.
Qed.


Lemma sound_new_Swarm : sound new_Swarm.
Proof. split; [reflexivity|constructor]. Qed.

Lemma sound_mark_complete (this : Swarm) (r : ref) :
  sound this -> sound (mark_complete this r).
Proof.
  intros [Hwf Hnd]. split; [now apply wf_mark_complete|].
  unfold surviving, mark_complete. now destruct (objs this !! r).
Qed.

Lemma handler_sound (h : Handler) (this : Swarm) (p : Params) (cb : bool) :
  In h handlers ->
  sound this ->
  sound (fst (fst (h this (Some p) (obj_get (addr p) (peers this)) cb))).
Proof.
  intros Hh [Hwf Hnd]. split; [now apply handler_wf|].
  simpl in Hh. unfold surviving in *.
  destruct Hh as [<-|[<-|[<-|[<-|[]]]]].
  - unfold _onAnnounce_started, _onAnnounce_update.
    destruct (truthy (obj_get (addr p) (peers this))) as [r|]; simpl; [exact Hnd|].
    assert (Hgoal : List.NoDup (live_refs (obj_set (addr p) (Some (length (objs this)))
                                                   (peers this)))).
    { apply NoDup_live_refs_obj_set; [exact Hnd|].
      intros r [= <-] Hin. unfold wf in Hwf. rewrite refs_in_spec in Hwf.
      apply Hwf in Hin. lia. }
    destruct (is_zero (left p)); exact Hgoal.
  - unfold _onAnnounce_stopped.
    destruct (truthy (obj_get (addr p) (peers this))) as [r|]; simpl; [|exact Hnd].
    destruct (read_complete this r); simpl;
      (apply NoDup_live_refs_obj_set; [exact Hnd|discriminate]).
  - unfold _onAnnounce_completed.
    destruct (truthy (obj_get (addr p) (peers this))) as [r|]; simpl; [|exact Hnd].
    destruct (read_complete this r); simpl; [exact Hnd|].
    unfold mark_complete. simpl. now destruct (objs this !! r).
  - unfold _onAnnounce_update.
    destruct (truthy (obj_get (addr p) (peers this))) as [r|]; exact Hnd.
Qed.

(** Every registry the server can hold is sound. *)
Lemma reachable_sound (calls : list Params) : sound (run calls new_Swarm).
Proof.
  apply (run_preserves sound).
  - apply sound_mark_complete.
  - intros h this p cb. apply handler_sound.
  - apply sound_new_Swarm.
Qed.




(** ** Further properties of the HTTP tracker client *)

(** *** The scrape URL *)

#[local] Arguments String.append : simpl nomatch.

Lemma strip_prefix_Some (p s rest : string) :
  HTTP.strip_prefix p s = Some rest -> s = p +:+ rest.
Proof.
  revert s. induction p as [|a p IH]; intros s; simpl.
  - destruct s; now intros [= <-].
  - destruct s as [|b s]; [discriminate|].
    destruct (Ascii.eqb_spec a b) as [->|_]; [|discriminate].
    intros H. now rewrite (IH s H).
Qed.

Lemma no_slash_app_slash (pre t : string) :
  HTTP.no_slash (pre +:+ String "/" t) = false.
Proof.
  induction pre as [|c pre IH]; simpl; [reflexivity|].
  rewrite IH. apply andb_false_r.
Qed.

(** A slash that lies behind a slash-free word lies in what follows it. *)
Lemma slash_behind_word (w pre t rest : string) :
  HTTP.no_slash w = true ->
  pre <> EmptyString ->
  pre +:+ String "/" t = String "/" w +:+ rest ->
  HTTP.no_slash rest = false.
Proof.
  intros Hw Hpre. destruct pre as [|c pre]; [congruence|]. clear Hpre.
  simpl. intros [= -> H]. revert pre H.
  induction w as [|a w IH]; intros pre H.
  - cbn in H. subst rest. apply no_slash_app_slash.
  - cbn in Hw, H. apply andb_true_iff in Hw. destruct Hw as [Ha Hw].
    destruct pre as [|c pre]; cbn in H.
    + injection H as <- _. discriminate Ha.
    + injection H as _ H. now apply (IH Hw pre).
Qed.

Lemma support_index_cons (c : ascii) (s : string) :
  HTTP.scrape_support_index (String c s)
  = if HTTP.scrape_support_here (String c s) then Some 0%nat
    else match HTTP.scrape_support_index s with
         | Some i => Some (S i)
         | None => None
         end.
Proof. reflexivity. Qed.

Lemma support_index_found (pre suf : string) :
  HTTP.no_slash suf = true ->
  HTTP.scrape_support_index (pre +:+ "/announce" +:+ suf) = Some (String.length pre).
Proof.
  intros Hsuf. induction pre as [|c pre IH].
  - simpl. unfold HTTP.scrape_support_here. simpl. now rewrite Hsuf.
  - change (String c pre +:+ "/announce" +:+ suf)
      with (String c (pre +:+ "/announce" +:+ suf)).
    rewrite support_index_cons, IH. cbn [String.length].
    destruct (HTTP.scrape_support_here (String c (pre +:+ "/announce" +:+ suf))) eqn:Hh;
      [|reflexivity].
    exfalso. unfold HTTP.scrape_support_here in Hh.
    destruct (HTTP.strip_prefix "/announce" (String c (pre +:+ "/announce" +:+ suf)))
      as [rest|] eqn:Hs; [|discriminate Hh].
    apply strip_prefix_Some in Hs.
    assert (Hrest : HTTP.no_slash rest = false).
    { apply (slash_behind_word "announce" (String c pre) ("announce" +:+ suf) rest);
        [reflexivity|discriminate|exact Hs]. }
    congruence.
Qed.

Lemma slice_to_app (pre s : string) : HTTP.slice_to (String.length pre) (pre +:+ s) = pre.
Proof.
  induction pre as [|c pre IH]; simpl; [now destruct s|now rewrite IH].
Qed.

Lemma slice_from_app (pre s : string) (n : nat) :
  HTTP.slice_from (String.length pre + n) (pre +:+ s) = HTTP.slice_from n s.
Proof. induction pre as [|c pre IH]; simpl; [reflexivity|exact IH]. Qed.

Lemma support_index_sound (s : string) (i : nat) :
  HTTP.scrape_support_index s = Some i ->
  s = HTTP.slice_to i s +:+ "/announce" +:+ HTTP.slice_from (i + 9) s /\
  HTTP.no_slash (HTTP.slice_from (i + 9) s) = true.
Proof.
  revert i. induction s as [|c s IH]; intros i.
  - simpl. unfold HTTP.scrape_support_here. simpl. discriminate.
  - rewrite support_index_cons.
    destruct (HTTP.scrape_support_here (String c s)) eqn:Hh.
    + intros [= <-]. unfold HTTP.scrape_support_here in Hh.
      destruct (HTTP.strip_prefix "/announce" (String c s)) as [rest|] eqn:Hs;
        [|discriminate Hh].
      apply strip_prefix_Some in Hs. rewrite Hs. simpl. split; [reflexivity|exact Hh].
    + destruct (HTTP.scrape_support_index s) as [j|]; [|discriminate].
      intros [= <-]. destruct (IH j eq_refl) as [Heq Hns].
      change (HTTP.slice_from (S j + 9) (String c s)) with (HTTP.slice_from (j + 9) s).
      change (HTTP.slice_to (S j) (String c s)) with (String c (HTTP.slice_to j s)).
      split; [|exact Hns].
      change (String c s = String c (HTTP.slice_to j s +:+ "/announce"
                                      +:+ HTTP.slice_from (j + 9) s)).
      now rewrite <- Heq.
Qed.

Lemma scrapeUrl_of_parts (pre suf : string) :
  HTTP.no_slash suf = true ->
  HTTP._scrapeUrl (pre +:+ "/announce" +:+ suf) = Some (pre +:+ "/scrape" +:+ suf).
Proof.
  intros Hsuf. unfold HTTP._scrapeUrl. rewrite (support_index_found pre suf Hsuf).
  now rewrite slice_to_app, slice_from_app.
Qed.

Lemma scrapeUrl_parts (announceUrl scrapeUrl : string) :
  HTTP._scrapeUrl announceUrl = Some scrapeUrl ->
  exists pre suf,
    announceUrl = pre +:+ "/announce" +:+ suf /\
    HTTP.no_slash suf = true /\
    scrapeUrl = pre +:+ "/scrape" +:+ suf.
Proof.
  unfold HTTP._scrapeUrl.
  destruct (HTTP.scrape_support_index announceUrl) as [i|] eqn:Hi; [|discriminate].
  intros [= <-]. destruct (support_index_sound announceUrl i Hi) as [Heq Hns].
  exists (HTTP.slice_to i announceUrl), (HTTP.slice_from (i + 9) announceUrl).
  repeat split; assumption.
Qed.

(** When the announce URL ends in a path segment that begins with [announce],
    the scrape URL is the announce URL with that one word replaced by
    [scrape]: what precedes the segment and what follows the word (an
    extension, a query string) are kept. *)
Theorem scrape_url_derived (pre suf : string) :
  HTTP.no_slash suf = true ->
  HTTP._scrapeUrl (pre +:+ "/announce" +:+ suf) = Some (pre +:+ "/scrape" +:+ suf).
Proof. apply scrapeUrl_of_parts. Qed.

Lemma scrape_url_derived_witness :
  HTTP._scrapeUrl ("http://tracker.example:6969" +:+ "/announce" +:+ ".php?passkey=k")
  = Some ("http://tracker.example:6969" +:+ "/scrape" +:+ ".php?passkey=k").
Proof.
  apply (scrape_url_derived "http://tracker.example:6969" ".php?passkey=k").
  reflexivity.
Defined.

(** A scrape URL only ever comes about that way: if the tracker has one, the
    announce URL has a last path segment beginning with [announce], and the
    scrape URL is the announce URL with that word replaced. *)
Theorem scrape_url_only_derived (announceUrl scrapeUrl : string) :
  HTTP._scrapeUrl announceUrl = Some scrapeUrl ->
  exists pre suf,
    announceUrl = pre +:+ "/announce" +:+ suf /\
    HTTP.no_slash suf = true /\
    scrapeUrl = pre +:+ "/scrape" +:+ suf.
Proof. apply scrapeUrl_parts. Qed.

Lemma scrape_url_only_derived_witness :
  exists pre suf,
    "http://tracker.example/x/announce" = pre +:+ "/announce" +:+ suf /\
    HTTP.no_slash suf = true /\
    "http://tracker.example/x/scrape" = pre +:+ "/scrape" +:+ suf.
Proof.
  apply (scrape_url_only_derived "http://tracker.example/x/announce"
                                 "http://tracker.example/x/scrape").
  reflexivity.
Defined.

Lemma no_slash_after_last_slash (s : string) :
  HTTP.no_slash s = true -> after_last_slash s = None.
Proof.
  induction s as [|c s IH]; simpl; [reflexivity|].
  intros H. apply andb_true_iff in H. destruct H as [Hc Hs].
  rewrite (IH Hs). apply negb_true_iff in Hc. now rewrite Hc.
Qed.

Lemma after_last_slash_app (pre segment : string) :
  HTTP.no_slash segment = true ->
  after_last_slash (pre +:+ String "/" segment) = Some segment.
Proof.
  intros Hseg. induction pre as [|c pre IH]; simpl.
  - now rewrite (no_slash_after_last_slash segment Hseg).
  - now rewrite IH.
Qed.

Lemma after_last_slash_Some (s segment : string) :
  after_last_slash s = Some segment ->
  exists pre, s = pre +:+ String "/" segment /\ HTTP.no_slash segment = true.
Proof.
  revert segment. induction s as [|c s IH]; intros segment; simpl; [discriminate|].
  destruct (after_last_slash s) as [seg|] eqn:Hs.
  - intros [= <-]. destruct (IH seg eq_refl) as (pre & -> & Hns).
    exists (String c pre). split; [reflexivity|exact Hns].
  - destruct (Ascii.eqb_spec c "/") as [->|_]; [|discriminate].
    intros [= <-]. exists EmptyString. split; [reflexivity|].
    clear IH. induction s as [|a s IH]; simpl in *; [reflexivity|].
    destruct (after_last_slash s); [discriminate|].
    destruct (Ascii.eqb a "/"); [discriminate|]. now rewrite IH.
Qed.

Lemma no_slash_app (s t : string) :
  HTTP.no_slash (s +:+ t) = HTTP.no_slash s && HTTP.no_slash t.
Proof.
  induction s as [|c s IH]; simpl; [reflexivity|].
  now rewrite IH, andb_assoc.
Qed.

(** The tracker has a scrape URL exactly when the last path segment of its
    announce URL begins with [announce]. *)
Lemma scrape_url_exists_iff (announceUrl : string) :
  is_Some_b (HTTP._scrapeUrl announceUrl) = ends_in_announce announceUrl.
Proof.
  unfold ends_in_announce.
  destruct (HTTP._scrapeUrl announceUrl) as [u|] eqn:Hu.
  - destruct (scrapeUrl_parts _ _ Hu) as (pre & suf & -> & Hns & _).
    change ("/announce" +:+ suf) with (String "/" ("announce" +:+ suf)).
    rewrite after_last_slash_app by exact Hns. reflexivity.
  - destruct (after_last_slash announceUrl) as [segment|] eqn:Hs; [|reflexivity].
    destruct (HTTP.strip_prefix "announce" segment) as [suf|] eqn:Hp; [|reflexivity].
    exfalso. destruct (after_last_slash_Some _ _ Hs) as (pre & -> & Hns).
    apply strip_prefix_Some in Hp. subst segment.
    rewrite no_slash_app in Hns. apply andb_true_iff in Hns. destruct Hns as [_ Hns].
    change (String "/" ("announce" +:+ suf)) with ("/announce" +:+ suf) in Hu.
    rewrite (scrapeUrl_of_parts pre suf Hns) in Hu. discriminate Hu.
Qed.

(** [scrape] on a tracker whose announce URL has no slash, or whose last
    path segment does not begin with [announce], emits one 'scrape not
    supported' error naming the announce URL, and makes no request. *)
Theorem scrape_unsupported (client : HTTP.Client) (self : HTTPTracker) (opts : HTTP.Opts) :
  ends_in_announce (_announceUrl self) = false ->
  HTTP.scrape client self opts
  = HTTP.ScrapeError (Error ("scrape not supported " +:+ _announceUrl self)).
Proof.
  intros Hno. unfold HTTP.scrape.
  pose proof (scrape_url_exists_iff (_announceUrl self)) as Hex. rewrite Hno in Hex.
  now destruct (HTTP._scrapeUrl (_announceUrl self)).
Qed.

Lemma scrape_unsupported_witness :
  let self := HTTP.new_HTTPTracker (HTTP.mkClient 1800000 50 "hash" "peer" 6881)
                "http://tracker.example/announce/v2" None in
  HTTP.scrape (HTTP.mkClient 1800000 50 "hash" "peer" 6881) self
              (HTTP.mkOpts None None None None None None None [])
  = HTTP.ScrapeError (Error "scrape not supported http://tracker.example/announce/v2").
Proof.
  apply (scrape_unsupported (HTTP.mkClient 1800000 50 "hash" "peer" 6881)
           (HTTP.new_HTTPTracker (HTTP.mkClient 1800000 50 "hash" "peer" 6881)
              "http://tracker.example/announce/v2" None)
           (HTTP.mkOpts None None None None None None None [])).
  reflexivity.
Defined.

(** With a scrape URL, [scrape] requests it.  The request carries the hashes
    of a non-empty batch in their order, the single hash given, or the
    client's own hash when none is given; an empty batch is not taken as
    absent and gives the empty hash.  The [infoHash] option itself is
    removed, and nothing else of the options is changed. *)
Theorem scrape_request (client : HTTP.Client) (self : HTTPTracker) (opts : HTTP.Opts)
    (pre suf : string) :
  _announceUrl self = pre +:+ "/announce" +:+ suf ->
  HTTP.no_slash suf = true ->
  exists sent,
    HTTP.scrape client self opts = HTTP.ScrapeRequest (pre +:+ "/scrape" +:+ suf) sent /\
    HTTP.o_infoHash sent = None /\
    HTTP.o_info_hash sent
    = Some match HTTP.o_infoHash opts with
           | Some (HTTP.HashList []) => HTTP.OneHash ""
           | Some hashes => hashes
           | None => HTTP.OneHash (HTTP.c_infoHash client)
           end /\
    (HTTP.o_trackerid sent, HTTP.o_compact sent, HTTP.o_numwant sent,
     HTTP.o_peer_id sent, HTTP.o_port sent, HTTP.o_rest sent)
    = (HTTP.o_trackerid opts, HTTP.o_compact opts, HTTP.o_numwant opts,
       HTTP.o_peer_id opts, HTTP.o_port opts, HTTP.o_rest opts).
Proof.
  intros Hurl Hsuf. unfold HTTP.scrape.
  rewrite Hurl, (scrapeUrl_of_parts pre suf Hsuf).
  eexists. split; [reflexivity|]. simpl. split; [reflexivity|]. split; [|reflexivity].
  destruct (HTTP.o_infoHash opts) as [[h|[|h l]]|]; reflexivity.
Qed.

Lemma scrape_request_witness :
  let client := HTTP.mkClient 1800000 50 "hash" "peer" 6881 in
  let self := HTTP.new_HTTPTracker client "http://tracker.example/announce?k=1" None in
  exists sent,
    HTTP.scrape client self (HTTP.mkOpts None None None None None None
                                         (Some (HTTP.HashList [])) [])
    = HTTP.ScrapeRequest ("http://tracker.example" +:+ "/scrape" +:+ "?k=1") sent /\
    HTTP.o_infoHash sent = None /\
    HTTP.o_info_hash sent = Some (HTTP.OneHash "") /\
    (HTTP.o_trackerid sent, HTTP.o_compact sent, HTTP.o_numwant sent,
     HTTP.o_peer_id sent, HTTP.o_port sent, HTTP.o_rest sent)
    = (None, None, None, None, None, []).
Proof.
  apply (scrape_request (HTTP.mkClient 1800000 50 "hash" "peer" 6881)
           (HTTP.new_HTTPTracker (HTTP.mkClient 1800000 50 "hash" "peer" 6881)
              "http://tracker.example/announce?k=1" None)
           (HTTP.mkOpts None None None None None None (Some (HTTP.HashList [])) [])
           "http://tracker.example" "?k=1"); reflexivity.
Defined.

(** *** Announce responses *)

Lemma response_state (multi multi6 : string -> JsError + list string)
    (self : HTTPTracker) (data : AnnounceData) :
  fst (_onAnnounceResponse multi multi6 self data) = negotiated self data.
Proof.
  unfold _onAnnounceResponse, negotiated.
  destruct (d_peers data) as [|b|l]; [reflexivity| |reflexivity].
  destruct (multi b); reflexivity.
Qed.

Lemma negotiated_url (self : HTTPTracker) (data : AnnounceData) :
  _announceUrl (negotiated self data) = _announceUrl self /\
  _opts_interval (negotiated self data) = _opts_interval self.
Proof.
  unfold negotiated.
  destruct (text_falsy (d_tracker_id data)); simpl;
    (destruct (if num_truthy (d_interval data) then d_interval data
               else d_min_interval data) as [i|]; [|tauto]);
    destruct (_ && _ && _); simpl; tauto.
Qed.

Lemma peers6_events_shape (multi6 : string -> JsError + list string) (data : AnnounceData) :
  forallb is_peer_event (peers6_events multi6 data) = true \/
  exists err, peers6_events multi6 data = [EvWarning err].
Proof.
  unfold peers6_events. destruct (d_peers6 data) as [|b|l].
  - now left.
  - destruct (multi6 b) as [err|addrs]; [right; now exists err|left].
    induction addrs; simpl; auto.
  - left. induction l; simpl; auto.
Qed.

(** Whatever an announce response holds, its events begin with exactly one
    [update] event, carrying the announce URL and the two counts of the
    response; all the events after it are peer events, except that the last
    one may be a warning. *)
Theorem response_events_shape (multi multi6 : string -> JsError + list string)
    (self : HTTPTracker) (data : AnnounceData) :
  exists found tail,
    snd (_onAnnounceResponse multi multi6 self data)
    = EvUpdate (_announceUrl self) (d_complete data) (d_incomplete data)
      :: found ++ tail /\
    forallb is_peer_event found = true /\
    (tail = [] \/ exists err, tail = [EvWarning err]).
Proof.
  pose proof (negotiated_url self data) as [Hurl _].
  pose proof (response_state multi multi6 self data) as Hst.
  assert (Hmap : forall (A : Type) (f : A -> string) (l : list A),
            forallb is_peer_event (map (fun x => EvPeer (f x)) l) = true).
  { intros A f l. induction l; simpl; auto. }
  unfold _onAnnounceResponse in *.
  set (self2 := if text_falsy (d_tracker_id data) then _ else _) in *.
  assert (Hu : _announceUrl self2 = _announceUrl self).
  { fold (negotiated self data) in self2. exact Hurl. }
  destruct (peers6_events_shape multi6 data) as [H6|[err6 H6]].
  - destruct (d_peers data) as [|b|l].
    + exists (peers6_events multi6 data), []. simpl. rewrite Hu, app_nil_r. auto.
    + destruct (multi b) as [err|addrs].
      * exists [], [EvWarning err]. simpl. rewrite Hu. eauto.
      * exists (map EvPeer addrs ++ peers6_events multi6 data), []. simpl.
        rewrite Hu, app_nil_r, forallb_app, H6, (Hmap _ (fun a => a)). auto.
    + exists (map (fun p => EvPeer (host_port (v_ip p) (v_port p))) l
              ++ peers6_events multi6 data), []. simpl.
      rewrite Hu, app_nil_r, forallb_app, H6,
        (Hmap _ (fun p => host_port (v_ip p) (v_port p))). auto.
  - rewrite H6. destruct (d_peers data) as [|b|l].
    + exists [], [EvWarning err6]. simpl. rewrite Hu. eauto.
    + destruct (multi b) as [err|addrs].
      * exists [], [EvWarning err]. simpl. rewrite Hu. eauto.
      * exists (map EvPeer addrs), [EvWarning err6]. simpl.
        rewrite Hu, (Hmap _ (fun a => a)). eauto.
    + exists (map (fun p => EvPeer (host_port (v_ip p) (v_port p))) l), [EvWarning err6].
      simpl. rewrite Hu, (Hmap _ (fun p => host_port (v_ip p) (v_port p))). eauto.
Qed.

(** A compact [peers6] field that fails to decode does not take back the
    peers of the [peers] field: they have been emitted, in their order, and
    the warning follows them. *)
Theorem peers6_failure_keeps_peers (multi multi6 : string -> JsError + list string)
    (self : HTTPTracker) (data : AnnounceData)
    (bytes bytes6 : string) (addrs : list string) (err : JsError) :
  d_peers data = PeersBuffer bytes ->
  multi bytes = inr addrs ->
  d_peers6 data = PeersBuffer bytes6 ->
  multi6 bytes6 = inl err ->
  snd (_onAnnounceResponse multi multi6 self data)
  = EvUpdate (_announceUrl self) (d_complete data) (d_incomplete data)
    :: map EvPeer addrs ++ [EvWarning err].
Proof.
  intros Hp Hm Hp6 Hm6.
  pose proof (negotiated_url self data) as [Hurl _].
  unfold _onAnnounceResponse, peers6_events. rewrite Hp, Hm, Hp6, Hm6. simpl.
  unfold negotiated in Hurl. now rewrite Hurl.
Qed.

Lemma peers6_failure_keeps_peers_witness :
  let multi := fun _ : string => inr ["10.0.0.1:6881"; "10.0.0.2:6881"] in
  let multi6 := fun _ : string => inl (Error "Invalid Compact IP/PORT") in
  let self := mkHTTPTracker "http://tracker.example/announce" None 1800000 None None in
  let data := mkAnnounceData None None None (Some 3) (Some 5)
                (PeersBuffer "xxxxxxxxxxxx") (PeersBuffer "y") in
  snd (_onAnnounceResponse multi multi6 self data)
  = EvUpdate "http://tracker.example/announce" (Some 3) (Some 5)
    :: map EvPeer ["10.0.0.1:6881"; "10.0.0.2:6881"]
       ++ [EvWarning (Error "Invalid Compact IP/PORT")].
Proof.
  apply (peers6_failure_keeps_peers
           (fun _ : string => inr ["10.0.0.1:6881"; "10.0.0.2:6881"])
           (fun _ : string => inl (Error "Invalid Compact IP/PORT"))
           (mkHTTPTracker "http://tracker.example/announce" None 1800000 None None)
           (mkAnnounceData None None None (Some 3) (Some 5)
              (PeersBuffer "xxxxxxxxxxxx") (PeersBuffer "y"))
           "xxxxxxxxxxxx" "y" ["10.0.0.1:6881"; "10.0.0.2:6881"]
           (Error "Invalid Compact IP/PORT")); reflexivity.
Defined.

(** *** What a session negotiates *)

Lemma after_responses_cons (multi multi6 : string -> JsError + list string)
    (self : HTTPTracker) (d : AnnounceData) (responses : list AnnounceData) :
  after_responses multi multi6 self (d :: responses)
  = after_responses multi multi6 (negotiated self d) responses.
Proof. unfold after_responses. simpl. now rewrite response_state. Qed.

Lemma negotiated_trackerId (self : HTTPTracker) (data : AnnounceData) :
  _trackerId (negotiated self data)
  = if text_falsy (d_tracker_id data) then _trackerId self else d_tracker_id data.
Proof.
  unfold negotiated.
  destruct (text_falsy (d_tracker_id data)); simpl; [|reflexivity].
  destruct (if num_truthy (d_interval data) then d_interval data
            else d_min_interval data) as [i|]; [|reflexivity].
  now destruct (_ && _ && _).
Qed.

(** The tracker id is sticky: once the session holds one, it holds one after
    any number of responses, and responses that carry none (or an empty
    string) leave it exactly as it was.  A tracker id that comes as a Buffer,
    as decoded replies have it, replaces the held one even when it is
    empty. *)
Theorem tracker_id_is_sticky (multi multi6 : string -> JsError + list string)
    (self : HTTPTracker) (responses : list AnnounceData) :
  (text_truthy (_trackerId self) = true ->
   text_truthy (_trackerId (after_responses multi multi6 self responses)) = true) /\
  (forallb (fun d => text_falsy (d_tracker_id d)) responses = true ->
   _trackerId (after_responses multi multi6 self responses) = _trackerId self) /\
  (forall d bytes, d_tracker_id d = Some (Buf bytes) ->
   _trackerId (after_responses multi multi6 self (responses ++ [d])) = Some (Buf bytes)).
Proof.
  revert self. induction responses as [|d responses IH]; intros self.
  - split; [intros H; exact H|]. split; [reflexivity|].
    intros d bytes Hd. cbn [app]. rewrite after_responses_cons.
    change (after_responses multi multi6 (negotiated self d) []) with (negotiated self d).
    rewrite negotiated_trackerId.
    unfold text_falsy. now rewrite Hd.
  - cbn [app]. destruct (IH (negotiated self d)) as (IH1 & IH2 & IH3).
    pose proof (negotiated_trackerId self d) as Hn. split; [|split].
    + rewrite after_responses_cons. intros H. apply IH1. rewrite Hn.
      unfold text_falsy. destruct (text_truthy (d_tracker_id d)) eqn:Hd; [exact Hd|exact H].
    + rewrite after_responses_cons. simpl. intros H.
      apply andb_true_iff in H. destruct H as [Hd H].
      rewrite (IH2 H), Hn, Hd. reflexivity.
    + intros d' bytes Hd'. rewrite after_responses_cons. now apply IH3.
Qed.

Lemma tracker_id_is_sticky_witness :
  let multi := fun _ : string => inr [] in
  let self := mkHTTPTracker "http://tracker.example/announce" None 1800000 None
                (Some (Buf "t1")) in
  let responses := [mkAnnounceData (Some 900) None None None None PeersOther PeersOther;
                    mkAnnounceData None None (Some (Str "")) None None
                                   PeersOther PeersOther] in
  text_truthy (_trackerId (after_responses multi multi self responses)) = true /\
  _trackerId (after_responses multi multi self responses) = Some (Buf "t1") /\
  _trackerId (after_responses multi multi self
                (responses ++ [mkAnnounceData None None (Some (Buf "")) None None
                                              PeersOther PeersOther]))
  = Some (Buf "").
Proof.
  pose proof (tracker_id_is_sticky (fun _ : string => inr []) (fun _ : string => inr [])
                (mkHTTPTracker "http://tracker.example/announce" None 1800000 None
                               (Some (Buf "t1")))
                [mkAnnounceData (Some 900) None None None None PeersOther PeersOther;
                 mkAnnounceData None None (Some (Str "")) None None
                                PeersOther PeersOther]) as (H1 & H2 & H3).
  split; [apply H1; reflexivity|].
  split; [apply H2; reflexivity|].
  apply (H3 (mkAnnounceData None None (Some (Buf "")) None None PeersOther PeersOther) "").
  reflexivity.
Defined.

Lemma negotiated_pinned (self : HTTPTracker) (data : AnnounceData) :
  num_truthy (_opts_interval self) = true \/ _intervalMs self = 0 ->
  _intervalMs (negotiated self data) = _intervalMs self /\
  _interval (negotiated self data) = _interval self.
Proof.
  intros Hpin.
  assert (Hoff : negb (num_truthy (_opts_interval self))
                 && negb (Z.eqb (_intervalMs self) 0) = false).
  { destruct Hpin as [-> | ->]; [reflexivity|apply andb_false_r]. }
  unfold negotiated.
  destruct (text_falsy (d_tracker_id data)); simpl;
    (destruct (if num_truthy (d_interval data) then d_interval data
               else d_min_interval data) as [i|]; [|tauto]);
    rewrite <- andb_assoc, Hoff, andb_false_r; tauto.
Qed.

(** When the caller pinned an interval, or re-announcing is switched off
    (an interval of zero), no response changes the interval or the timer,
    whatever intervals the tracker recommends. *)
Theorem pinned_interval_is_kept (multi multi6 : string -> JsError + list string)
    (self : HTTPTracker) (responses : list AnnounceData) :
  num_truthy (_opts_interval self) = true \/ _intervalMs self = 0 ->
  let after := after_responses multi multi6 self responses in
  _intervalMs after = _intervalMs self /\ _interval after = _interval self.
Proof.
  revert self. induction responses as [|d responses IH]; intros self Hpin; cbv zeta.
  - simpl. tauto.
  - rewrite after_responses_cons.
    destruct (negotiated_pinned self d Hpin) as [Hms Ht].
    destruct (negotiated_url self d) as [_ Ho].
    destruct (IH (negotiated self d)) as [IH1 IH2].
    { rewrite Ho, Hms. exact Hpin. }
    cbv zeta in IH1, IH2. rewrite IH1, IH2. tauto.
Qed.

Lemma pinned_interval_is_kept_witness :
  let multi := fun _ : string => inr [] in
  let self := mkHTTPTracker "http://tracker.example/announce" None 0 None None in
  let after := after_responses multi multi self
                 [mkAnnounceData (Some 900) (Some 60) None None None PeersOther PeersOther] in
  _intervalMs after = 0 /\ _interval after = None.
Proof.
  apply (pinned_interval_is_kept (fun _ : string => inr []) (fun _ : string => inr [])
           (mkHTTPTracker "http://tracker.example/announce" None 0 None None)
           [mkAnnounceData (Some 900) (Some 60) None None None PeersOther PeersOther]).
  right. reflexivity.
Defined.

Lemma running_timers_setInterval (self : HTTPTracker) (intervalMs : Z) :
  dropped_stopped self = true ->
  dropped_stopped (setInterval self intervalMs) = true /\
  running_timers (setInterval self intervalMs)
  = if Z.eqb intervalMs 0 then [] else [mkTimer intervalMs true].
Proof.
  unfold dropped_stopped, running_timers, setInterval, clearInterval. intros Hd.
  assert (Hnone : List.filter running (_dropped self) = []).
  { induction (_dropped self) as [|t l IH]; [reflexivity|]. simpl in *.
    apply andb_true_iff in Hd. destruct Hd as [Ht Hl].
    apply negb_true_iff in Ht. rewrite Ht. now apply IH. }
  destruct (Z.eqb intervalMs 0); simpl.
  - split; [exact Hd|]. destruct (_interval self); simpl; exact Hnone.
  - destruct (_interval self); simpl; rewrite Hnone; auto.
Qed.

Lemma negotiated_dropped (self : HTTPTracker) (data : AnnounceData) :
  (exists seconds,
     _interval (negotiated self data) = _interval (setInterval self (seconds * 1000)) /\
     _dropped (negotiated self data) = _dropped (setInterval self (seconds * 1000))) \/
  (_interval (negotiated self data) = _interval self /\
   _dropped (negotiated self data) = _dropped self).
Proof.
  unfold negotiated.
  destruct (if num_truthy (d_interval data) then d_interval data
            else d_min_interval data) as [i|];
    [|right; destruct (text_falsy (d_tracker_id data)); simpl; split; reflexivity].
  destruct (num_truthy (Some i) && negb (num_truthy (_opts_interval self))
            && negb (Z.eqb (_intervalMs self) 0)).
  - left. exists i. destruct (text_falsy (d_tracker_id data)); simpl; split; reflexivity.
  - right. destruct (text_falsy (d_tracker_id data)); simpl; split; reflexivity.
Qed.

(** Otherwise the tracker's recommendation is adopted: [interval], or
    [min interval] when [interval] is absent or zero, becomes the interval in
    milliseconds; the timer the tracker held is cleared, and the only timer
    left running is a new one set with that delay. *)
Theorem server_interval_adopted (multi multi6 : string -> JsError + list string)
    (self : HTTPTracker) (data : AnnounceData) (seconds : Z) :
  num_truthy (_opts_interval self) = false ->
  _intervalMs self <> 0 ->
  (if num_truthy (d_interval data) then d_interval data else d_min_interval data)
  = Some seconds ->
  seconds <> 0 ->
  dropped_stopped self = true ->
  let after := fst (_onAnnounceResponse multi multi6 self data) in
  _intervalMs after = seconds * 1000 /\
  _interval after = Some (mkTimer (seconds * 1000) true) /\
  running_timers after = [mkTimer (seconds * 1000) true] /\
  dropped_stopped after = true.
Proof.
  intros Hopt Hms Hrec Hsec Hd. cbv zeta. rewrite response_state.
  destruct (running_timers_setInterval self (seconds * 1000) Hd) as [Hd' Hrun].
  assert (Hneg : exists id,
            negotiated self data
            = MkHTTPTracker (_announceUrl self) (_opts_interval self) (seconds * 1000)
                (_interval (setInterval self (seconds * 1000))) id
                (_dropped (setInterval self (seconds * 1000)))).
  { unfold negotiated. rewrite Hrec, Hopt. simpl.
    destruct (Z.eqb_spec seconds 0) as [|_]; [contradiction|].
    destruct (Z.eqb_spec (_intervalMs self) 0) as [|_]; [contradiction|]. simpl.
    destruct (text_falsy (d_tracker_id data)); eexists; reflexivity. }
  destruct Hneg as [id ->].
  destruct (Z.eqb_spec (seconds * 1000) 0) as [H0|Hne]; [lia|].
  unfold running_timers, dropped_stopped in *. simpl in *.
  destruct (Z.eqb_spec (seconds * 1000) 0) as [H0|_]; [lia|].
  repeat split; assumption.
Qed.

Lemma server_interval_adopted_witness :
  let multi := fun _ : string => inr [] in
  let self := mkHTTPTracker "http://tracker.example/announce" None 1800000
                (Some (mkTimer 1800000 true)) None in
  let data := mkAnnounceData (Some 0) (Some 60) None None None PeersOther PeersOther in
  _intervalMs (fst (_onAnnounceResponse multi multi self data)) = 60 * 1000 /\
  _interval (fst (_onAnnounceResponse multi multi self data))
  = Some (mkTimer (60 * 1000) true) /\
  running_timers (fst (_onAnnounceResponse multi multi self data))
  = [mkTimer (60 * 1000) true] /\
  dropped_stopped (fst (_onAnnounceResponse multi multi self data)) = true.
Proof.
  apply (server_interval_adopted (fun _ : string => inr []) (fun _ : string => inr [])
           (mkHTTPTracker "http://tracker.example/announce" None 1800000
              (Some (mkTimer 1800000 true)) None)
           (mkAnnounceData (Some 0) (Some 60) None None None PeersOther PeersOther) 60);
    [reflexivity|discriminate|reflexivity|discriminate|reflexivity].
Defined.

(** However [setInterval] is called and whatever responses arrive, from the
    construction of the tracker on, at most one of its timers is running: the
    one it holds the handle of.  Every timer it made before has been
    cleared. *)
Theorem at_most_one_timer_runs (multi multi6 : string -> JsError + list string)
    (client : HTTP.Client) (announceUrl : string) (opts_interval : option Z)
    (steps : list SessionStep) :
  let after := after_steps multi multi6
                 (HTTP.new_HTTPTracker client announceUrl opts_interval) steps in
  (length (running_timers after) <= 1)%nat /\
  dropped_stopped after = true /\
  (forall timer, In timer (running_timers after) -> _interval after = Some timer).
Proof.
  cbv zeta.
  assert (Hfrom : forall self, dropped_stopped self = true ->
            (length (running_timers self) <= 1)%nat /\
            forall timer, In timer (running_timers self) -> _interval self = Some timer).
  { intros self Hd. unfold running_timers, dropped_stopped in *.
    assert (Hnone : List.filter running (_dropped self) = []).
    { induction (_dropped self) as [|t l IH]; [reflexivity|]. simpl in *.
      apply andb_true_iff in Hd. destruct Hd as [Ht Hl].
      apply negb_true_iff in Ht. rewrite Ht. now apply IH. }
    destruct (_interval self) as [t|]; simpl; [|rewrite Hnone; simpl; split; [lia|tauto]].
    destruct (running t); rewrite Hnone; simpl; split; try lia; try tauto.
    intros timer [<-|[]]. reflexivity. }
  assert (Hinv : forall self, dropped_stopped self = true ->
            dropped_stopped (after_steps multi multi6 self steps) = true).
  { induction steps as [|st steps IH]; intros self Hd; [exact Hd|].
    simpl. apply IH. destruct st as [ms|d]; simpl.
    - apply running_timers_setInterval, Hd.
    - rewrite response_state.
      destruct (negotiated_dropped self d) as [(sec & _ & Hdr)|[_ Hdr]].
      + unfold dropped_stopped. rewrite Hdr.
        apply (running_timers_setInterval self (sec * 1000) Hd).
      + unfold dropped_stopped. rewrite Hdr. exact Hd. }
  specialize (Hinv (HTTP.new_HTTPTracker client announceUrl opts_interval) eq_refl).
  destruct (Hfrom _ Hinv) as [Hlen Hheld]. auto.
Qed.

Lemma negotiated_timer_agrees (start : Z) (self : HTTPTracker) (data : AnnounceData) :
  timer_agrees start self -> timer_agrees start (negotiated self data).
Proof.
  intros Hself. unfold negotiated.
  set (self1 := match (if num_truthy (d_interval data) then d_interval data
                       else d_min_interval data) with
                | Some i => _
                | None => self
                end).
  assert (H1 : timer_agrees start self1).
  { subst self1.
    destruct (if num_truthy (d_interval data) then d_interval data
              else d_min_interval data) as [i|]; [|exact Hself].
    destruct (num_truthy (Some i)) eqn:Hi; simpl; [|exact Hself].
    destruct (negb (num_truthy (_opts_interval self)) && negb (Z.eqb (_intervalMs self) 0));
      [|exact Hself].
    simpl in Hi. apply negb_true_iff, Z.eqb_neq in Hi.
    unfold timer_agrees, setInterval. simpl.
    destruct (Z.eqb_spec (i * 1000) 0) as [H0|Hne]; [lia|]. simpl. auto. }
  destruct (text_falsy (d_tracker_id data)); exact H1.
Qed.

(** From its construction on, through any responses, the tracker's timer
    agrees with its interval: either no response has started a timer and the
    interval is still the client's, or the timer runs with the current
    interval as its period, which is not zero. *)
Theorem timer_follows_interval (multi multi6 : string -> JsError + list string)
    (client : HTTP.Client) (announceUrl : string) (opts_interval : option Z)
    (responses : list AnnounceData) :
  timer_agrees (HTTP.c_intervalMs client)
    (after_responses multi multi6
       (HTTP.new_HTTPTracker client announceUrl opts_interval) responses).
Proof.
  assert (Hinv : forall self, timer_agrees (HTTP.c_intervalMs client) self ->
            timer_agrees (HTTP.c_intervalMs client)
              (after_responses multi multi6 self responses)).
  { induction responses as [|d responses IH]; intros self Hself; [exact Hself|].
    rewrite after_responses_cons. now apply IH, negotiated_timer_agrees. }
  apply Hinv. reflexivity.
Qed.

(** *** Replies *)

(** A reply that fails in transport (an error, a status other than 200, an
    empty or missing body, a body that does not decode) gives exactly one
    warning; the response handler is not run and the tracker is left as it
    was. *)
Theorem transport_failure_warns {D : Type} (decode : string -> string + HTTP.Decoded D)
    (self : HTTPTracker) (reply : HTTP.Reply) :
  transport_failed decode reply = true ->
  exists err, forall cb,
    HTTP._request_callback D decode self cb reply = (self, [EvWarning err]).
Proof.
  unfold transport_failed, HTTP._request_callback. intros H.
  destruct (HTTP.reply_err reply) as [e|]; [now exists e|].
  destruct (Z.eqb (HTTP.reply_statusCode reply) 200); simpl in *; [|eauto].
  destruct (HTTP.reply_data reply) as [[|c body]|]; [eauto| |eauto].
  destruct (decode (String c body)) as [message|d]; [eauto|discriminate H].
Qed.

Lemma transport_failure_warns_witness :
  exists err, forall cb,
    HTTP._request_callback ScrapeData (fun _ => inl "Invalid data")
      (mkHTTPTracker "http://tracker.example/announce" None 1800000 None None)
      cb (HTTP.mkReply None 404 (Some "not found"))
    = (mkHTTPTracker "http://tracker.example/announce" None 1800000 None None,
       [EvWarning err]).
Proof.
  apply (transport_failure_warns (fun _ => inl "Invalid data")
           (mkHTTPTracker "http://tracker.example/announce" None 1800000 None None)
           (HTTP.mkReply None 404 (Some "not found"))).
  reflexivity.
Defined.

(** A decoded reply with a failure reason gives one warning carrying that
    reason and nothing else: the response handler is not run, so there is no
    update, peer or scrape event, and no interval or tracker id is taken
    from the response. *)
Theorem failure_reason_stops {D : Type} (decode : string -> string + HTTP.Decoded D)
    (self : HTTPTracker) (reply : HTTP.Reply) (body : string) (data : HTTP.Decoded D) :
  transport_failed decode reply = false ->
  HTTP.reply_data reply = Some body ->
  decode body = inr data ->
  text_truthy (HTTP.failure_reason data) = true ->
  forall cb,
    HTTP._request_callback D decode self cb reply
    = (self, [EvWarning (Error (text_message (HTTP.failure_reason data)))]).
Proof.
  unfold transport_failed, HTTP._request_callback. intros H Hbody Hdec Hfail cb.
  rewrite Hbody in *.
  destruct (HTTP.reply_err reply) as [e|]; [discriminate H|].
  destruct (Z.eqb (HTTP.reply_statusCode reply) 200); simpl in *; [|discriminate H].
  destruct body as [|c body]; [discriminate H|].
  now rewrite Hdec, Hfail.
Qed.

Lemma failure_reason_stops_witness :
  let decode := fun _ : string =>
    inr (HTTP.mkDecoded (Some (Buf "bad request")) None
           (mkAnnounceData (Some 900) None (Some (Buf "t1")) (Some 3) (Some 5)
              (PeersArray [mkVerbosePeer "10.0.0.1" 6881]) PeersOther)) in
  let self := mkHTTPTracker "http://tracker.example/announce" None 1800000 None None in
  HTTP._request_callback AnnounceData decode self
    (_onAnnounceResponse (fun _ => inr []) (fun _ => inr []))
    (HTTP.mkReply None 200 (Some "d..e"))
  = (self, [EvWarning (Error "bad request")]).
Proof.
  apply (failure_reason_stops
           (fun _ : string =>
              inr (HTTP.mkDecoded (Some (Buf "bad request")) None
                     (mkAnnounceData (Some 900) None (Some (Buf "t1")) (Some 3) (Some 5)
                        (PeersArray [mkVerbosePeer "10.0.0.1" 6881]) PeersOther)))
           (mkHTTPTracker "http://tracker.example/announce" None 1800000 None None)
           (HTTP.mkReply None 200 (Some "d..e")) "d..e"
           (HTTP.mkDecoded (Some (Buf "bad request")) None
              (mkAnnounceData (Some 900) None (Some (Buf "t1")) (Some 3) (Some 5)
                 (PeersArray [mkVerbosePeer "10.0.0.1" 6881]) PeersOther)));
    reflexivity.
Defined.

(** A decoded reply with a warning message and no failure reason gives the
    warning first, and then everything the response handler gives: the
    warning does not stop the handling of the response. *)
Theorem warning_message_continues {D : Type} (decode : string -> string + HTTP.Decoded D)
    (self : HTTPTracker) (reply : HTTP.Reply) (body : string) (data : HTTP.Decoded D) :
  transport_failed decode reply = false ->
  HTTP.reply_data reply = Some body ->
  decode body = inr data ->
  text_truthy (HTTP.failure_reason data) = false ->
  text_truthy (HTTP.warning_message data) = true ->
  forall cb,
    HTTP._request_callback D decode self cb reply
    = (fst (cb self (HTTP.payload data)),
       EvWarning (Error (text_message (HTTP.warning_message data)))
       :: snd (cb self (HTTP.payload data))).
Proof.
  unfold transport_failed, HTTP._request_callback. intros H Hbody Hdec Hfail Hwarn cb.
  rewrite Hbody in *.
  destruct (HTTP.reply_err reply) as [e|]; [discriminate H|].
  destruct (Z.eqb (HTTP.reply_statusCode reply) 200); simpl in *; [|discriminate H].
  destruct body as [|c body]; [discriminate H|].
  rewrite Hdec, Hfail, Hwarn. now destruct (cb self (HTTP.payload data)).
Qed.

Lemma warning_message_continues_witness :
  let decode := fun _ : string =>
    inr (HTTP.mkDecoded None (Some (Buf "slow down"))
           (mkScrapeData (Some [("hash", mkScrapeStats (Some 3) (Some 5) (Some 10))])
                         None)) in
  let self := mkHTTPTracker "http://tracker.example/announce" None 1800000 None None in
  HTTP._request_callback ScrapeData decode self (scrape_handler (fun h => h))
    (HTTP.mkReply None 200 (Some "d..e"))
  = (self,
     [EvWarning (Error "slow down");
      EvScrape "http://tracker.example/announce" "hash" (Some 3) (Some 5) (Some 10)]).
Proof.
  apply (warning_message_continues
           (fun _ : string =>
              inr (HTTP.mkDecoded None (Some (Buf "slow down"))
                     (mkScrapeData
                        (Some [("hash", mkScrapeStats (Some 3) (Some 5) (Some 10))])
                        None)))
           (mkHTTPTracker "http://tracker.example/announce" None 1800000 None None)
           (HTTP.mkReply None 200 (Some "d..e")) "d..e"
           (HTTP.mkDecoded None (Some (Buf "slow down"))
              (mkScrapeData
                 (Some [("hash", mkScrapeStats (Some 3) (Some 5) (Some 10))]) None)));
    reflexivity.
Defined.

(** *** Announce requests *)

(** The timer re-announces with one options object, which [announce] fills
    in each time.  Filling it in again changes nothing: the defaults put in
    the first time are kept, and so is whatever the caller gave, a [compact]
    or [numwant] of zero included. *)
Theorem announce_options_settle (client : HTTP.Client) (self : HTTPTracker)
    (opts : HTTP.Opts) :
  HTTP.announce client self (HTTP.announce client self opts)
  = HTTP.announce client self opts /\
  (forall c, HTTP.o_compact opts = Some c ->
             HTTP.o_compact (HTTP.announce client self opts) = Some c) /\
  (forall n, HTTP.o_numwant opts = Some n ->
             HTTP.o_numwant (HTTP.announce client self opts) = Some n).
Proof.
  unfold HTTP.announce. split; [|split].
  - destruct (text_falsy (_trackerId self)), (HTTP.o_compact opts), (HTTP.o_numwant opts);
      reflexivity.
  - intros c ->. reflexivity.
  - intros n ->. reflexivity.
Qed.

Lemma announce_options_settle_witness :
  let client := HTTP.mkClient 1800000 50 "hash" "peer" 6881 in
  let self := mkHTTPTracker "http://tracker.example/announce" None 1800000 None (Some (Buf "t1")) in
  HTTP.o_compact (HTTP.announce client self
                    (HTTP.mkOpts None (Some 0) None None None None None []))
  = Some 0.
Proof.
  apply (proj1 (proj2 (announce_options_settle
                         (HTTP.mkClient 1800000 50 "hash" "peer" 6881)
                         (mkHTTPTracker "http://tracker.example/announce" None 1800000
                                        None (Some (Buf "t1")))
                         (HTTP.mkOpts None (Some 0) None None None None None []))) 0).
  reflexivity.
Defined.

(** *** Witnesses of the invariants *)

Lemma counts_sum_invariant_witness :
  let s := run [call "10.0.0.1" (Some "started") (Some 0);
                call "10.0.0.2" (Some "started") (Some 5);
                call "10.0.0.1" (Some "stopped") (Some 0);
                call "10.0.0.2" None (Some 0)] new_Swarm in
  complete s + incomplete s = live_count s.
Proof.
  apply (counts_sum_invariant
           [call "10.0.0.1" (Some "started") (Some 0);
            call "10.0.0.2" (Some "started") (Some 5);
            call "10.0.0.1" (Some "stopped") (Some 0);
            call "10.0.0.2" None (Some 0)]).
  reflexivity.
Defined.

Lemma peer_map_only_grows_witness :
  let s := run [call "10.0.0.1" (Some "started") (Some 5)] new_Swarm in
  let calls := [call "10.0.0.1" (Some "stopped") (Some 5);
                call "10.0.0.2" (Some "started") (Some 5);
                call "10.0.0.1" (Some "started") (Some 5)] in
  exists added,
    obj_keys (peers (run calls s)) = obj_keys (peers s) ++ added /\
    Forall (fun a => In a (map addr calls)) added.
Proof.
  apply (peer_map_only_grows
           [call "10.0.0.1" (Some "stopped") (Some 5);
            call "10.0.0.2" (Some "started") (Some 5);
            call "10.0.0.1" (Some "started") (Some 5)]
           (run [call "10.0.0.1" (Some "started") (Some 5)] new_Swarm)).
  reflexivity.
Defined.

(** *** Answers on the regular branches *)

Lemma regular_responds_witness :
  let s := run [call "10.0.0.1" (Some "started") (Some 5)] new_Swarm in
  let p := call "10.0.0.2" (Some "started") (Some 0) in
  outcome_of (announce s p)
  = CbOk (mkResponse (complete (state_after s p)) (incomplete (state_after s p))
                     (_getPeers (state_after s p) (numwant p))).
Proof.
  apply (regular_responds
           (run [call "10.0.0.1" (Some "started") (Some 5)] new_Swarm)
           (call "10.0.0.2" (Some "started") (Some 0))); reflexivity.
Defined.

(** *** Verbose IPv6 peers *)

(** The handler brackets IPv6 literals once: for a response whose [peers6] is
    a list of records with unbracketed IPv6 literals, the events after the
    update are the peer events ['[' + ip + ']:' + port], in order; and the
    same list with every literal already in brackets gives the very same
    events. *)
Theorem peers6_bracketed_once (multi multi6 : string -> JsError + list string)
    (self : HTTPTracker) (data : AnnounceData) (l : list VerbosePeer) :
  d_peers data = PeersOther ->
  forallb (fun p => has_colon (v_ip p) && negb (starts_with_bracket (v_ip p))) l = true ->
  d_peers6 data = PeersArray l \/
  d_peers6 data
  = PeersArray (map (fun p => mkVerbosePeer ("[" +:+ v_ip p +:+ "]") (v_port p)) l) ->
  snd (_onAnnounceResponse multi multi6 self data)
  = EvUpdate (_announceUrl self) (d_complete data) (d_incomplete data)
    :: map (fun p => EvPeer ("[" +:+ v_ip p +:+ "]:" +:+ pretty (v_port p))) l.
Proof.
  intros Hp Hl H6.
  pose proof (negotiated_url self data) as [Hurl _].
  assert (Hassoc : forall a b c : string, (a +:+ b) +:+ c = a +:+ (b +:+ c)).
  { intros a b c. induction a as [|x a IH]; simpl; [reflexivity|now rewrite IH]. }
  unfold _onAnnounceResponse, peers6_events. rewrite Hp.
  unfold negotiated in Hurl. cbn [snd]. rewrite Hurl. f_equal.
  destruct H6 as [-> | ->].
  - induction l as [|p l IH]; [reflexivity|]. simpl in Hl.
    apply andb_true_iff in Hl. destruct Hl as [Hhd Hl].
    apply andb_true_iff in Hhd. destruct Hhd as [Hc Hb]. apply negb_true_iff in Hb.
    cbn [map]. rewrite (IH Hl). f_equal.
    unfold peer6_address, host_port. rewrite Hc, Hb. simpl. now rewrite Hassoc.
  - rewrite map_map.
    induction l as [|p l IH]; [reflexivity|]. simpl in Hl.
    apply andb_true_iff in Hl. destruct Hl as [_ Hl].
    cbn [map]. rewrite (IH Hl). f_equal.
    unfold peer6_address, host_port. simpl. now rewrite Hassoc.
Qed.

Lemma peers6_bracketed_once_witness :
  let multi := fun _ : string => inr [] in
  let self := mkHTTPTracker "http://tracker.example/announce" None 1800000 None None in
  let data := mkAnnounceData None None None (Some 3) (Some 5) PeersOther
                (PeersArray [mkVerbosePeer "[::1]" 6881; mkVerbosePeer "[fe80::2]" 51413]) in
  snd (_onAnnounceResponse multi multi self data)
  = [EvUpdate "http://tracker.example/announce" (Some 3) (Some 5);
     EvPeer ("[" +:+ "::1" +:+ "]:" +:+ pretty 6881);
     EvPeer ("[" +:+ "fe80::2" +:+ "]:" +:+ pretty 51413)].
Proof.
  apply (peers6_bracketed_once (fun _ : string => inr []) (fun _ : string => inr [])
           (mkHTTPTracker "http://tracker.example/announce" None 1800000 None None)
           (mkAnnounceData None None None (Some 3) (Some 5) PeersOther
              (PeersArray [mkVerbosePeer "[::1]" 6881; mkVerbosePeer "[fe80::2]" 51413]))
           [mkVerbosePeer "::1" 6881; mkVerbosePeer "fe80::2" 51413]);
    [reflexivity|reflexivity|right; reflexivity].
Defined.

(** *** The wording of the specification on scrape responses *)

(** C7 as the specification words it fails: with an empty [files] mapping and
    a populated [host] mapping, the [host] field yields a non-empty mapping,
    so the wording asks for the events of the keys and no warning; the code
    takes [files], finds no key, and emits the warning and no scrape event. *)
Lemma scrape_wording_fails_on_empty_files :
  let self := mkHTTPTracker "http://tracker.example/announce" None 1800000 None None in
  let data := mkScrapeData (Some [])
                (Some [("hash", mkScrapeStats (Some 3) (Some 5) (Some 10))]) in
  yields_mapping (host data) = true /\
  _onScrapeResponse (fun h => h) self data
  = [EvWarning (Error "invalid scrape response")] /\
  _onScrapeResponse (fun h => h) self data
  <> scrape_events_as_specified (fun h => h) self data.
Proof.
  cbv zeta. split; [reflexivity|]. split; [reflexivity|]. vm_compute. discriminate.
Qed.
